(** * Multi-brand theme switcher: [theme-toggle.js]

    A shallow embedding of the theme controller of the design-token demo
    and the properties of its class-list rewrite, display refreshers and
    preference store.

    Strings are byte strings (the UTF-8 form of the JavaScript strings);
    splitting at the space character, concatenation and equality commute
    with that encoding.  The script's effects (root class attribute,
    document nodes, select controls, web storage, console) are threaded
    through an explicit world by a state-and-exception monad. *)

From Stdlib Require Import Ascii.
From stdpp Require Import base option list strings gmap.

(** ** JavaScript string and array primitives used by the script *)

Module Js.

Definition space : ascii := " "%char.

(** [s.split(' ')]: the pieces between the separators; never empty
    (the empty string splits into one empty piece). *)
Fixpoint split (sep : ascii) (s : string) : list string :=
  match s with
  | EmptyString => [EmptyString]
  | String c rest =>
      if Ascii.eqb c sep then EmptyString :: split sep rest
      else match split sep rest with
           | piece :: pieces => String c piece :: pieces
           | [] => [String c EmptyString]
           end
  end.

(** [arr.join(' ')]. *)
Fixpoint join (sep : string) (arr : list string) : string :=
  match arr with
  | [] => EmptyString
  | [x] => x
  | x :: rest => x +:+ sep +:+ join sep rest
  end.

(** [arr.includes(x)] on an array of strings. *)
Definition includes (arr : list string) (x : string) : bool :=
  existsb (String.eqb x) arr.

(** [arr.unshift(x)] and [arr.push(x)], as the new array. *)
Definition unshift (arr : list string) (x : string) : list string := x :: arr.
Definition push (arr : list string) (x : string) : list string := arr ++ [x].

(** [arr.filter(p)]. *)
Definition filter (p : string -> bool) (arr : list string) : list string :=
  List.filter p arr.

(** [a || b] where [a] is a string or [null]: [null] and the empty
    string are falsy. *)
Definition or_else (a : option string) (b : string) : string :=
  match a with
  | Some (String c s) => String c s
  | Some EmptyString | None => b
  end.

(** [s.trim()]: white space and line terminators are removed from both
    ends.  On the UTF-8 form these are the one-byte code points
    U+0009..U+000D and U+0020, the two-byte U+00A0, and the three-byte
    U+1680, U+2000..U+200A, U+2028, U+2029, U+202F, U+205F, U+3000 and
    U+FEFF. *)
Definition ws1 (c : ascii) : bool :=
  let n := nat_of_ascii c in
  (Nat.leb 9 n && Nat.leb n 13) || Nat.eqb n 32.

Definition ws2 (c1 c2 : ascii) : bool :=
  Nat.eqb (nat_of_ascii c1) 194 && Nat.eqb (nat_of_ascii c2) 160.

Definition ws3 (c1 c2 c3 : ascii) : bool :=
  let a := nat_of_ascii c1 in
  let b := nat_of_ascii c2 in
  let c := nat_of_ascii c3 in
  (Nat.eqb a 225 && Nat.eqb b 154 && Nat.eqb c 128)
  || (Nat.eqb a 226 && Nat.eqb b 128
      && ((Nat.leb 128 c && Nat.leb c 138)
          || Nat.eqb c 168 || Nat.eqb c 169 || Nat.eqb c 175))
  || (Nat.eqb a 226 && Nat.eqb b 129 && Nat.eqb c 159)
  || (Nat.eqb a 227 && Nat.eqb b 128 && Nat.eqb c 128)
  || (Nat.eqb a 239 && Nat.eqb b 187 && Nat.eqb c 191).

(** Drop leading white space; [fwd] tells whether the bytes are met in
    reading order or (for the trailing end) in reverse. *)
Fixpoint dropWs (fwd : bool) (l : list ascii) : list ascii :=
  match l with
  | [] => []
  | c1 :: l1 =>
      if ws1 c1 then dropWs fwd l1
      else match l1 with
           | [] => l
           | c2 :: l2 =>
               if (if fwd then ws2 c1 c2 else ws2 c2 c1) then dropWs fwd l2
               else match l2 with
                    | [] => l
                    | c3 :: l3 =>
                        if (if fwd then ws3 c1 c2 c3 else ws3 c3 c2 c1)
                        then dropWs fwd l3 else l
                    end
           end
  end.

Definition trim (s : string) : string :=
  String.string_of_list_ascii
    (rev (dropWs false (rev (dropWs true (String.list_ascii_of_string s))))).

(** Does the string hold the separator? *)
Fixpoint has_char (c : ascii) (s : string) : bool :=
  match s with
  | EmptyString => false
  | String d rest => Ascii.eqb d c || has_char c rest
  end.

End Js.

(** ** The class-list rewrite of [applyTheme] *)

Definition BASE_CLASS : string := "Headless-base".

(** [getThemeClass]: the template literal [`${brand}-${mode}`], i.e. the
    concatenation of its substitutions and its literal chunk. *)
Definition getThemeClass (brand mode : string) : string :=
  String.concat "" [brand; "-"; mode].

(** The predicate passed to [filter] at the head of [applyTheme]. *)
Definition keepClass (themeClass cls : string) : bool :=
  String.eqb cls BASE_CLASS || String.eqb cls themeClass.

(** The array [classList] of [applyTheme] just before it is joined:
    split, filter, conditional [unshift], conditional [push]. *)
Definition classList (brand mode className : string) : list string :=
  let themeClass := getThemeClass brand mode in
  let l0 := Js.filter (keepClass themeClass) (Js.split Js.space className) in
  let l1 := if negb (Js.includes l0 BASE_CLASS) then Js.unshift l0 BASE_CLASS else l0 in
  let l2 := if negb (Js.includes l1 themeClass) then Js.push l1 themeClass else l1 in
  l2.

(** The string written back to [htmlElement.className]. *)
Definition themedClassName (brand mode className : string) : string :=
  Js.join " " (classList brand mode className).

(** The class attribute read as a token sequence, the way [applyTheme]
    itself reads it. *)
Definition classTokens (className : string) : list string :=
  Js.split Js.space className.

(** ** Exceptions and results *)

Inductive Exn : Type :=
| TypeError (msg : string)        (* property access on [null] *)
| DOMException (name : string).   (* QuotaExceededError, SecurityError, ... *)

Inductive result (A : Type) : Type :=
| Ok (a : A)
| Throw (e : Exn).
Arguments Ok {A} a.
Arguments Throw {A} e.

(** ** The persistence medium ([localStorage])

    [getItem] answers the stored string or [null]; [setItem] answers the
    store after the write.  Either may throw. *)
Class WebStorage (Store : Type) : Type := {
  getItem : Store -> string -> result (option string);
  setItem : Store -> string -> string -> result Store
}.

(** ** The document

    The element objects of the page, in tree order; a reference to an
    element is its position in this sequence, and stays valid when the
    element leaves the document.  [el_parent] is the parent the element
    was loaded under, [el_attached] tells whether the element is still in
    the document.  [el_textContent] is the string last assigned to
    [textContent]; for an element the script has not written it is the
    text the element was loaded with.  The script inserts nothing, so an
    element that has left the document never returns. *)

Record Element : Type := mkElement {
  el_id : option string;
  el_classes : list string;
  el_data_var : option string;      (* the [data-var] attribute *)
  el_textContent : string;
  el_parent : option nat;
  el_attached : bool
}.

Definition setText (v : string) (e : Element) : Element :=
  {| el_id := el_id e; el_classes := el_classes e;
     el_data_var := el_data_var e; el_textContent := v;
     el_parent := el_parent e; el_attached := el_attached e |}.

Definition detach (e : Element) : Element :=
  {| el_id := el_id e; el_classes := el_classes e;
     el_data_var := el_data_var e; el_textContent := el_textContent e;
     el_parent := el_parent e; el_attached := false |}.

(** Is [node] a proper descendant of [ancestor]?  The parent chain is
    followed for at most as many steps as there are elements. *)
Fixpoint isInside (doc : list Element) (fuel : nat) (ancestor node : nat) : bool :=
  match fuel with
  | 0 => false
  | S fuel' =>
      match doc !! node ≫= el_parent with
      | Some p => Nat.eqb p ancestor || isInside doc fuel' ancestor p
      | None => false
      end
  end.

Definition inside (doc : list Element) (ancestor node : nat) : bool :=
  isInside doc (length doc) ancestor node.

(** The effect of [element.textContent = v] on the page: every
    descendant of the element leaves the document, and the element holds
    the text [v]. *)
Definition removeChildren (i : nat) (doc : list Element) : list Element :=
  imap (λ j e, if inside doc i j then detach e else e) doc.

Definition assignTextContent (i : nat) (v : string) (doc : list Element)
  : list Element :=
  alter (setText v) i (removeChildren i doc).

(** A [select] control: its option values and the selected one. *)
Record Select : Type := mkSelect {
  sel_options : list string;
  sel_selectedIndex : option nat
}.

Definition sel_value (s : Select) : string :=
  match sel_selectedIndex s with
  | Some i => default EmptyString (sel_options s !! i)
  | None => EmptyString
  end.

Definition sel_setValue (v : string) (s : Select) : Select :=
  {| sel_options := sel_options s;
     sel_selectedIndex := fst <$> list_find (λ o, o = v) (sel_options s) |}.

Inductive Control : Type := BrandSelect | ModeSelect.
Inductive Handler : Type := HandleBrandChange | HandleModeChange.

Inductive ConsoleEntry : Type :=
| Warn (msg : string) (error : Exn)
| Log (msg brand mode themeClass htmlClasses : string).

(** What the script does to its environment, in the order it does it.
    A style read records the class attribute in force when it resolves. *)
Inductive Event : Type :=
| EvClassRead
| EvClassWrite (className : string)
| EvStyleRead (className varName : string)
| EvTextWrite (element : nat) (text : string)
| EvStorageRead (key : string)
| EvStorageWrite (key value : string)
| EvConsole.

(** The world the script runs in.  [w_classesDisplay], [w_brandSelect]
    and [w_modeSelect] are the module-level constants looked up once when
    the script is evaluated ([null] when the node is missing). *)
Record World (Store : Type) : Type := mkWorld {
  w_className : string;                  (* [htmlElement.className] *)
  w_document : list Element;
  w_classesDisplay : option nat;
  w_brandSelect : option Select;
  w_modeSelect : option Select;
  w_localStorage : Store;
  w_console : list ConsoleEntry;
  w_listeners : list (Control * Handler);
  w_trace : list Event
}.
Arguments mkWorld {Store}.
Arguments w_className {Store}.
Arguments w_document {Store}.
Arguments w_classesDisplay {Store}.
Arguments w_brandSelect {Store}.
Arguments w_modeSelect {Store}.
Arguments w_localStorage {Store}.
Arguments w_console {Store}.
Arguments w_listeners {Store}.
Arguments w_trace {Store}.

Section World_updates.
Context {Store : Type}.
Implicit Type w : World Store.

Definition with_className (c : string) w : World Store :=
  mkWorld c (w_document w) (w_classesDisplay w) (w_brandSelect w)
    (w_modeSelect w) (w_localStorage w) (w_console w) (w_listeners w)
    (w_trace w).
Definition with_document (d : list Element) w : World Store :=
  mkWorld (w_className w) d (w_classesDisplay w) (w_brandSelect w)
    (w_modeSelect w) (w_localStorage w) (w_console w) (w_listeners w)
    (w_trace w).
Definition with_select (c : Control) (s : option Select) w : World Store :=
  match c with
  | BrandSelect =>
      mkWorld (w_className w) (w_document w) (w_classesDisplay w) s
        (w_modeSelect w) (w_localStorage w) (w_console w) (w_listeners w)
        (w_trace w)
  | ModeSelect =>
      mkWorld (w_className w) (w_document w) (w_classesDisplay w)
        (w_brandSelect w) s (w_localStorage w) (w_console w)
        (w_listeners w) (w_trace w)
  end.
Definition with_localStorage (s : Store) w : World Store :=
  mkWorld (w_className w) (w_document w) (w_classesDisplay w)
    (w_brandSelect w) (w_modeSelect w) s (w_console w) (w_listeners w)
    (w_trace w).
Definition with_console (c : list ConsoleEntry) w : World Store :=
  mkWorld (w_className w) (w_document w) (w_classesDisplay w)
    (w_brandSelect w) (w_modeSelect w) (w_localStorage w) c
    (w_listeners w) (w_trace w).
Definition with_listeners (l : list (Control * Handler)) w : World Store :=
  mkWorld (w_className w) (w_document w) (w_classesDisplay w)
    (w_brandSelect w) (w_modeSelect w) (w_localStorage w) (w_console w) l
    (w_trace w).
Definition emit (e : Event) w : World Store :=
  mkWorld (w_className w) (w_document w) (w_classesDisplay w)
    (w_brandSelect w) (w_modeSelect w) (w_localStorage w) (w_console w)
    (w_listeners w) (w_trace w ++ [e]).

Definition select_of (c : Control) w : option Select :=
  match c with
  | BrandSelect => w_brandSelect w
  | ModeSelect => w_modeSelect w
  end.
End World_updates.

(** ** The monad of the script: state and exceptions *)

Definition M (Store A : Type) : Type := World Store -> result A * World Store.

Definition ret {Store A} (a : A) : M Store A := fun w => (Ok a, w).

Definition bind {Store A B} (m : M Store A) (k : A -> M Store B) : M Store B :=
  fun w =>
    match m w with
    | (Ok a, w') => k a w'
    | (Throw e, w') => (Throw e, w')
    end.

Definition throw {Store A} (e : Exn) : M Store A := fun w => (Throw e, w).

(** [try { m } catch (error) { h error }]. *)
Definition try_catch {Store A} (m : M Store A) (h : Exn -> M Store A) : M Store A :=
  fun w =>
    match m w with
    | (Ok a, w') => (Ok a, w')
    | (Throw e, w') => h e w'
    end.

Declare Scope script_scope.
Delimit Scope script_scope with script.
Notation "x <- c1 ;; c2" := (bind c1 (fun x => c2))
  (at level 100, c1 at next level, right associativity) : script_scope.
Notation "c1 ;; c2" := (bind c1 (fun _ => c2))
  (at level 100, right associativity) : script_scope.
Local Open Scope script_scope.

(** [arr.forEach(f)]. *)
Fixpoint forEach {Store A} (f : A -> M Store unit) (arr : list A) : M Store unit :=
  match arr with
  | [] => ret tt
  | x :: rest => f x ;; forEach f rest
  end.

(** ** The script *)

Definition STORAGE_KEY_BRAND : string := "ds-theme-brand".
Definition STORAGE_KEY_MODE : string := "ds-theme-mode".

(** The table of [updateComponentTokenValues], in the order
    [Object.entries] enumerates it. *)
Definition tokenMap : list (string * string) :=
  [ ("btn-radius-value", "--button-border-radius");
    ("btn-font-value", "--button-font-family");
    ("btn-border-width-value", "--button-border-width");
    ("heading-font-value", "--heading-sans-serif-font-family");
    ("body-font-value", "--body-sans");
    ("heading-size-value", "--heading-m-font-size");
    ("tag-radius-value", "--tag-border-radius");
    ("tag-font-value", "--tag-font-family");
    ("tag-weight-value", "--tag-font-weight") ].

(** [document.getElementById]: the first element in the document
    carrying the id. *)
Definition elementById (id : string) (doc : list Element) : option nat :=
  fst <$> list_find (λ e, el_attached e = true ∧ el_id e = Some id) doc.

(** The selector [.swatch-value[data-var]]. *)
Definition isSwatchValue (e : Element) : bool :=
  bool_decide ("swatch-value" ∈ el_classes e) && bool_decide (is_Some (el_data_var e)).

(** [document.querySelectorAll('.swatch-value[data-var]')]: the elements
    in the document matching the selector, in tree order, as a static
    list. *)
Fixpoint swatchValuesFrom (i : nat) (doc : list Element) : list nat :=
  match doc with
  | [] => []
  | e :: rest =>
      if isSwatchValue e && el_attached e then i :: swatchValuesFrom (S i) rest
      else swatchValuesFrom (S i) rest
  end.

(** Truthiness of a possibly-[null] object reference. *)
Definition truthy {A} (o : option A) : bool :=
  match o with Some _ => true | None => false end.

(** The result of [loadFromStorage]. *)
Record Saved : Type := mkSaved {
  saved_brand : option string;
  saved_mode : option string
}.

Section Script.
Context {Store : Type} `{WebStorage Store}.

(** The resolved value of a custom property on the root element, as a
    function of the root's class attribute: the style sheets are
    outside the script. *)
Variable computedValue : string -> string -> string.

Local Abbreviation JS := (M Store).

(** *** Primitive operations *)

Definition getClassName : JS string :=
  fun w => (Ok (w_className w), emit EvClassRead w).

Definition setClassName (c : string) : JS unit :=
  fun w => (Ok tt, emit (EvClassWrite c) (with_className c w)).

Definition getElementById (id : string) : JS (option nat) :=
  fun w => (Ok (elementById id (w_document w)), w).

Definition getClassesDisplay : JS (option nat) :=
  fun w => (Ok (w_classesDisplay w), w).

Definition querySelectorAll_swatchValues : JS (list nat) :=
  fun w => (Ok (swatchValuesFrom 0 (w_document w)), w).

(** [element.getAttribute('data-var')]. *)
Definition getAttribute_data_var (element : nat) : JS (option string) :=
  fun w => (Ok (w_document w !! element ≫= el_data_var), w).

(** [element.textContent = v]: the element's children are removed and
    it holds the text [v]; a [null] reference throws. *)
Definition setTextContent (element : option nat) (v : string) : JS unit :=
  fun w =>
    match element with
    | Some i =>
        (Ok tt, emit (EvTextWrite i v)
                  (with_document (assignTextContent i v (w_document w)) w))
    | None => (Throw (TypeError "Cannot set properties of null"), w)
    end.

(** [getComputedStyle(htmlElement).getPropertyValue(varName)]; a
    [null] name is converted to the string ["null"]. *)
Definition getPropertyValue (varName : option string) : JS string :=
  fun w =>
    let name := default "null" varName in
    (Ok (computedValue (w_className w) name),
     emit (EvStyleRead (w_className w) name) w).

Definition localStorage_setItem (key value : string) : JS unit :=
  fun w =>
    let w1 := emit (EvStorageWrite key value) w in
    match setItem (w_localStorage w) key value with
    | Ok s => (Ok tt, with_localStorage s w1)
    | Throw e => (Throw e, w1)
    end.

Definition localStorage_getItem (key : string) : JS (option string) :=
  fun w =>
    let w1 := emit (EvStorageRead key) w in
    match getItem (w_localStorage w) key with
    | Ok v => (Ok v, w1)
    | Throw e => (Throw e, w1)
    end.

Definition console_warn (msg : string) (error : Exn) : JS unit :=
  fun w => (Ok tt, emit EvConsole (with_console (w_console w ++ [Warn msg error]) w)).

Definition console_log (msg brand mode themeClass htmlClasses : string) : JS unit :=
  fun w =>
    (Ok tt, emit EvConsole
              (with_console
                 (w_console w ++ [Log msg brand mode themeClass htmlClasses]) w)).

(** [control.value]; a [null] control throws. *)
Definition getValue (c : Control) : JS string :=
  fun w =>
    match select_of c w with
    | Some s => (Ok (sel_value s), w)
    | None => (Throw (TypeError "Cannot read properties of null"), w)
    end.

(** [control.value = v]. *)
Definition setValue (c : Control) (v : string) : JS unit :=
  fun w =>
    match select_of c w with
    | Some s => (Ok tt, with_select c (Some (sel_setValue v s)) w)
    | None => (Throw (TypeError "Cannot set properties of null"), w)
    end.

(** [control.addEventListener('change', h)]. *)
Definition addEventListener (c : Control) (h : Handler) : JS unit :=
  fun w =>
    match select_of c w with
    | Some _ => (Ok tt, with_listeners (w_listeners w ++ [(c, h)]) w)
    | None => (Throw (TypeError "Cannot read properties of null"), w)
    end.

(** *** Display refreshers *)

Definition updateClassDisplay : JS unit :=
  classesDisplay <- getClassesDisplay ;;
  if truthy classesDisplay then
    c <- getClassName ;;
    setTextContent classesDisplay c
  else ret tt.

(** The callback of [swatchValues.forEach]. *)
Definition swatchCallback (element : nat) : JS unit :=
  varName <- getAttribute_data_var element ;;
  raw <- getPropertyValue varName ;;
  let value := Js.trim raw in
  setTextContent (Some element) value.

Definition updateSwatchValues : JS unit :=
  swatchValues <- querySelectorAll_swatchValues ;;
  forEach swatchCallback swatchValues.

(** The callback of [Object.entries(tokenMap).forEach]. *)
Definition tokenCallback (entry : string * string) : JS unit :=
  let '(elementId, varName) := entry in
  element <- getElementById elementId ;;
  if truthy element then
    raw <- getPropertyValue (Some varName) ;;
    let value := Js.trim raw in
    setTextContent element value
  else ret tt.

Definition updateComponentTokenValues : JS unit :=
  forEach tokenCallback tokenMap.

(** *** Theme controller *)

Definition applyTheme (brand mode : string) : JS unit :=
  className <- getClassName ;;
  setClassName (Js.join " " (classList brand mode className)) ;;
  updateClassDisplay ;;
  updateSwatchValues ;;
  updateComponentTokenValues.

(** *** Preference store *)

Definition saveToStorage (brand mode : string) : JS unit :=
  try_catch
    (localStorage_setItem STORAGE_KEY_BRAND brand ;;
     localStorage_setItem STORAGE_KEY_MODE mode)
    (fun error => console_warn "Failed to save theme preferences:" error).

Definition loadFromStorage : JS Saved :=
  try_catch
    (brand <- localStorage_getItem STORAGE_KEY_BRAND ;;
     mode <- localStorage_getItem STORAGE_KEY_MODE ;;
     ret (mkSaved brand mode))
    (fun error =>
       console_warn "Failed to load theme preferences:" error ;;
       ret (mkSaved None None)).

(** *** Event handlers and start-up *)

Definition handleBrandChange : JS unit :=
  brand <- getValue BrandSelect ;;
  mode <- getValue ModeSelect ;;
  applyTheme brand mode ;;
  saveToStorage brand mode.

Definition handleModeChange : JS unit :=
  brand <- getValue BrandSelect ;;
  mode <- getValue ModeSelect ;;
  applyTheme brand mode ;;
  saveToStorage brand mode.

Definition runHandler (h : Handler) : JS unit :=
  match h with
  | HandleBrandChange => handleBrandChange
  | HandleModeChange => handleModeChange
  end.

Definition init : JS unit :=
  saved <- loadFromStorage ;;
  let brand := Js.or_else (saved_brand saved) "Brand-A" in
  let mode := Js.or_else (saved_mode saved) "Lightmode" in
  setValue BrandSelect brand ;;
  setValue ModeSelect mode ;;
  applyTheme brand mode ;;
  addEventListener BrandSelect HandleBrandChange ;;
  addEventListener ModeSelect HandleModeChange ;;
  htmlClasses <- getClassName ;;
  console_log "Theme system initialized:" brand mode
    (getThemeClass brand mode) htmlClasses.

End Script.

(** ** A storage area with a quota, and a sample page

    A storage area as browsers provide it: an ordered list of items, a
    quota on the total length of keys and values, and a switch standing
    for storage being denied to the page.  It instantiates the medium the
    script is parametric in. *)

Record StorageArea : Type := mkArea {
  area_items : list (string * string);
  area_quota : nat;
  area_denied : bool
}.

Fixpoint area_get (key : string) (items : list (string * string)) : option string :=
  match items with
  | [] => None
  | (k, v) :: rest => if String.eqb k key then Some v else area_get key rest
  end.

Fixpoint area_put (key value : string) (items : list (string * string))
  : list (string * string) :=
  match items with
  | [] => [(key, value)]
  | (k, v) :: rest =>
      if String.eqb k key then (key, value) :: rest
      else (k, v) :: area_put key value rest
  end.

Definition area_size (items : list (string * string)) : nat :=
  foldr (λ '(k, v) n, String.length k + String.length v + n) 0 items.

Definition area_getItem (a : StorageArea) (key : string) : result (option string) :=
  if area_denied a then Throw (DOMException "SecurityError")
  else Ok (area_get key (area_items a)).

Definition area_setItem (a : StorageArea) (key value : string) : result StorageArea :=
  if area_denied a then Throw (DOMException "SecurityError")
  else
    let items := area_put key value (area_items a) in
    if Nat.ltb (area_quota a) (area_size items)
    then Throw (DOMException "QuotaExceededError")
    else Ok (mkArea items (area_quota a) (area_denied a)).

#[export] Instance StorageArea_WebStorage : WebStorage StorageArea :=
  {| getItem := area_getItem; setItem := area_setItem |}.

(** Number of occurrences of a token in a token sequence. *)
Definition occurrences (x : string) (l : list string) : nat :=
  length (List.filter (String.eqb x) l).

(** Sample style resolution: one rule of the base sheet and one override. *)
Definition demoStyles (className varName : string) : string :=
  if Js.includes (classTokens className) "Brand-B-Darkmode"
     && String.eqb varName "--button-border-radius"
  then " 0px"
  else if Js.includes (classTokens className) BASE_CLASS then " 4px "
  else "".

Definition demoDocument : list Element :=
  [ mkElement (Some "current-classes-display") [] None "" None true;
    mkElement (Some "btn-radius-value") ["token-value"] None "?" None true;
    mkElement None ["swatch-value"] (Some "--semantic-fg-default") "" None true;
    mkElement (Some "tag-font-value") [] None "" None true ].

(** A page with display elements inside display elements: a table
    element inside a swatch, and a table element inside another table
    element that comes earlier in the table. *)
Definition nestedDocument : list Element :=
  [ mkElement (Some "current-classes-display") [] None "" None true;
    mkElement None ["swatch-value"] (Some "--semantic-fg-default") "" None true;
    mkElement (Some "btn-radius-value") [] None "?" (Some 1) true;
    mkElement (Some "tag-font-value") [] None "" None true;
    mkElement (Some "tag-weight-value") [] None "?" (Some 3) true ].

Definition demoBrands : Select :=
  mkSelect ["Brand-A"; "Brand-B"; "Brand-C"; "Brand-I"] (Some 1).
Definition demoModes : Select :=
  mkSelect ["Lightmode"; "Darkmode"] (Some 1).

Definition demoWorld (className : string) (area : StorageArea) : World StorageArea :=
  mkWorld className demoDocument
    (elementById "current-classes-display" demoDocument)
    (Some demoBrands) (Some demoModes) area [] [] [].

Definition emptyArea : StorageArea := mkArea [] 64 false.
Definition deniedArea : StorageArea := mkArea [] 64 true.
Definition savedArea : StorageArea :=
  mkArea [(STORAGE_KEY_BRAND, "Brand-B"); (STORAGE_KEY_MODE, "Darkmode")] 64 false.
(** Full to the quota: room for a brand of the same length, none for a
    longer mode. *)
Definition tightArea : StorageArea :=
  mkArea [(STORAGE_KEY_BRAND, "Brand-A"); (STORAGE_KEY_MODE, "Darkmode")] 42 false.
Definition blankArea : StorageArea :=
  mkArea [(STORAGE_KEY_BRAND, ""); (STORAGE_KEY_MODE, "")] 64 false.

Definition nestedWorld (className : string) : World StorageArea :=
  mkWorld className nestedDocument
    (elementById "current-classes-display" nestedDocument)
    (Some demoBrands) (Some demoModes) emptyArea [] [] [].

(** A page whose brand control is missing. *)
Definition brokenWorld : World StorageArea :=
  mkWorld "no-js" demoDocument
    (elementById "current-classes-display" demoDocument)
    None (Some demoModes) savedArea [] [] [].

(** ** Vocabulary of the statements *)

(** The laws of a key/value medium: a successful write is read back, and
    leaves the other keys alone. *)
Class LawfulStorage (Store : Type) `{WebStorage Store} : Prop := {
  getItem_setItem_eq s k v s' :
    setItem s k v = Ok s' → getItem s' k = Ok (Some v);
  getItem_setItem_ne s k v s' k' :
    setItem s k v = Ok s' → k' ≠ k → getItem s' k' = getItem s k'
}.

(** The set of class tokens of a class attribute is [{base, brand-mode}]. *)
Definition class_set_is (brand mode className : string) : Prop :=
  list_to_set (classTokens className)
  =@{gset string} {[ BASE_CLASS; getThemeClass brand mode ]}.

(** The token sequence holds the base class once and the brand-mode
    class once. *)
Definition exactly_one_each (brand mode className : string) : Prop :=
  occurrences BASE_CLASS (classTokens className) = 1
  ∧ occurrences (getThemeClass brand mode) (classTokens className) = 1.

(** The document with every text erased and every element put back:
    what the refreshers leave alone. *)
Definition erase (e : Element) : Element :=
  {| el_id := el_id e; el_classes := el_classes e;
     el_data_var := el_data_var e; el_textContent := EmptyString;
     el_parent := el_parent e; el_attached := true |}.

Definition skeleton (doc : list Element) : list Element :=
  erase <$> doc.

(** Element [i] is in the document. *)
Definition attached (doc : list Element) (i : nat) : Prop :=
  ∃ e, doc !! i = Some e ∧ el_attached e = true.

(** No element of [doc'] is in the document that was not in it in
    [doc]. *)
Definition fewer_attached (doc doc' : list Element) : Prop :=
  ∀ i, attached doc' i → attached doc i.

(** Element [i] carries the id of an entry of the table. *)
Definition tableNode (table : list (string * string)) (doc : list Element)
    (i : nat) : Prop :=
  ∃ e id var, doc !! i = Some e ∧ el_id e = Some id ∧ (id, var) ∈ table.

(** Element [i] matches the swatch selector and is in the document. *)
Definition swatchNode (doc : list Element) (i : nat) : Prop :=
  ∃ e, doc !! i = Some e ∧ isSwatchValue e = true ∧ el_attached e = true.

(** Events of a display refresh running under class attribute [c]: reads
    of the attribute, style reads resolved against [c], text writes. *)
Definition display_event (c : string) (e : Event) : Prop :=
  match e with
  | EvClassRead | EvTextWrite _ _ => True
  | EvStyleRead c' _ => c' = c
  | EvClassWrite _ | EvStorageRead _ | EvStorageWrite _ _ | EvConsole => False
  end.

(** Events of the preference store: storage accesses and the warning. *)
Definition store_event (e : Event) : Prop :=
  match e with
  | EvStorageRead _ | EvStorageWrite _ _ | EvConsole => True
  | EvClassRead | EvClassWrite _ | EvStyleRead _ _ | EvTextWrite _ _ => False
  end.

(** [w'] comes from [w] by display refreshes only. *)
Definition refreshed {Store} (w w' : World Store) : Prop :=
  w_className w' = w_className w
  ∧ skeleton (w_document w') = skeleton (w_document w)
  ∧ w_classesDisplay w' = w_classesDisplay w
  ∧ w_brandSelect w' = w_brandSelect w
  ∧ w_modeSelect w' = w_modeSelect w
  ∧ w_localStorage w' = w_localStorage w
  ∧ w_console w' = w_console w
  ∧ w_listeners w' = w_listeners w
  ∧ ∃ evs, w_trace w' = w_trace w ++ evs
           ∧ Forall (display_event (w_className w)) evs.

(** [w'] comes from [w] by one visual apply of [brand] and [mode]: the
    class attribute is read, rewritten in one write, and only then do the
    refreshers run, under the rewritten attribute. *)
Definition themed {Store} (brand mode : string) (w w' : World Store) : Prop :=
  let c := themedClassName brand mode (w_className w) in
  w_className w' = c
  ∧ skeleton (w_document w') = skeleton (w_document w)
  ∧ w_classesDisplay w' = w_classesDisplay w
  ∧ w_brandSelect w' = w_brandSelect w
  ∧ w_modeSelect w' = w_modeSelect w
  ∧ w_localStorage w' = w_localStorage w
  ∧ w_console w' = w_console w
  ∧ w_listeners w' = w_listeners w
  ∧ ∃ evs, w_trace w' = w_trace w ++ EvClassRead :: EvClassWrite c :: evs
           ∧ Forall (display_event c) evs.

(** [w'] comes from [w] by preference-store activity only. *)
Definition stored {Store} (w w' : World Store) : Prop :=
  w_className w' = w_className w
  ∧ w_document w' = w_document w
  ∧ w_classesDisplay w' = w_classesDisplay w
  ∧ w_brandSelect w' = w_brandSelect w
  ∧ w_modeSelect w' = w_modeSelect w
  ∧ w_listeners w' = w_listeners w
  ∧ ∃ evs, w_trace w' = w_trace w ++ evs ∧ Forall store_event evs.

(** What the two reads of [loadFromStorage] amount to. *)
Definition loadOutcome {Store} `{WebStorage Store} (s : Store) : Saved :=
  match getItem s STORAGE_KEY_BRAND with
  | Ok brand =>
      match getItem s STORAGE_KEY_MODE with
      | Ok mode => mkSaved brand mode
      | Throw _ => mkSaved None None
      end
  | Throw _ => mkSaved None None
  end.

(** What the two writes of [saveToStorage] amount to: the store left
    behind and the error caught, if any. *)
Definition saveOutcome {Store} `{WebStorage Store} (s : Store) (brand mode : string)
  : Store * option Exn :=
  match setItem s STORAGE_KEY_BRAND brand with
  | Ok s1 =>
      match setItem s1 STORAGE_KEY_MODE mode with
      | Ok s2 => (s2, None)
      | Throw e => (s1, Some e)
      end
  | Throw e => (s, Some e)
  end.

(** The white space and line terminator code points of the language, as
    UTF-8 byte sequences: U+0009..U+000D, U+0020, U+00A0, U+1680,
    U+2000..U+200A, U+2028, U+2029, U+202F, U+205F, U+3000, U+FEFF. *)
Definition whiteSpaceBytes : list (list nat) :=
  [ [9]; [10]; [11]; [12]; [13]; [32]; [194; 160]; [225; 154; 128];
    [226; 128; 128]; [226; 128; 129]; [226; 128; 130]; [226; 128; 131];
    [226; 128; 132]; [226; 128; 133]; [226; 128; 134]; [226; 128; 135];
    [226; 128; 136]; [226; 128; 137]; [226; 128; 138];
    [226; 128; 168]; [226; 128; 169]; [226; 128; 175]; [226; 129; 159];
    [227; 128; 128]; [239; 187; 191] ].

Definition whiteSpaces : list (list ascii) :=
  map (map ascii_of_nat) whiteSpaceBytes.

(** [v] is [raw] without its surrounding white space: [raw] is [v]
    between two runs of white space, and [v] neither starts nor ends with
    a white space. *)
Definition trimmedOf (raw v : string) : Prop :=
  ∃ pre post : list (list ascii),
    String.list_ascii_of_string raw
    = concat pre ++ String.list_ascii_of_string v ++ concat post
    ∧ Forall (λ ch, ch ∈ whiteSpaces) pre
    ∧ Forall (λ ch, ch ∈ whiteSpaces) post
    ∧ (∀ ch, ch ∈ whiteSpaces → ¬ ch `prefix_of` String.list_ascii_of_string v)
    ∧ (∀ ch, ch ∈ whiteSpaces → ¬ ch `suffix_of` String.list_ascii_of_string v).

(** The class attribute in its plain two-class form. *)
Definition plainClassName (themeClass : string) : string :=
  BASE_CLASS +:+ " " +:+ themeClass.

(** * Properties *)

(** ** Splitting and joining *)

Lemma split_not_nil sep s : Js.split sep s ≠ [].
Proof.
  destruct s as [|c s]; simpl; [done|].
  destruct (Ascii.eqb c sep); [done|].
  by destruct (Js.split sep s).
Qed.

Lemma split_whole sep s : Js.has_char sep s = false → Js.split sep s = [s].
Proof.
  induction s as [|c s IH]; simpl; [done|].
  intros [Hc Hs]%orb_false_iff.
  by rewrite Hc, (IH Hs).
Qed.

Lemma split_append sep x r :
  Js.has_char sep x = false →
  Js.split sep (x +:+ String sep r) = x :: Js.split sep r.
Proof.
  induction x as [|c x IH]; simpl.
  - intros _. by rewrite Ascii.eqb_refl.
  - intros [Hc Hx]%orb_false_iff. by rewrite Hc, (IH Hx).
Qed.

Lemma split_pieces sep s :
  Forall (λ t, Js.has_char sep t = false) (Js.split sep s).
Proof.
  induction s as [|c s IH]; simpl.
  - by constructor.
  - destruct (Ascii.eqb c sep) eqn:Hc.
    + by constructor.
    + destruct (Js.split sep s) as [|p ps].
      { constructor; [|constructor]. simpl. by rewrite Hc. }
      inversion IH as [|? ? Hp Hps]; subst.
      constructor; [|done]. simpl. by rewrite Hc, Hp.
Qed.

(** Joining with single spaces and splitting again gives the array back,
    as long as it is not empty and no piece holds a space. *)
Lemma split_join (arr : list string) :
  arr ≠ [] →
  Forall (λ t, Js.has_char Js.space t = false) arr →
  Js.split Js.space (Js.join " " arr) = arr.
Proof.
  induction arr as [|x rest IH]; [done|].
  intros _ Hall. inversion Hall as [|? ? Hx Hrest]; subst.
  destruct rest as [|y rest].
  - simpl. by apply split_whole.
  - change (Js.join " " (x :: y :: rest))
      with (x +:+ String Js.space (Js.join " " (y :: rest))).
    rewrite split_append by done. f_equal. by apply IH.
Qed.

(** ** Trimming *)

Lemma dropWs_suffix fwd l : ∃ pre, l = pre ++ Js.dropWs fwd l.
Proof.
  remember (length l) as n eqn:Hn. revert l Hn.
  induction n as [n IH] using lt_wf_ind. intros l ->.
  destruct l as [|c1 l1]; [by exists []|]. simpl.
  destruct (Js.ws1 c1).
  { destruct (IH (length l1) ltac:(simpl; lia) l1 eq_refl) as [pre Hpre].
    exists (c1 :: pre). simpl. by rewrite <- Hpre. }
  destruct l1 as [|c2 l2]; [by exists []|].
  destruct (if fwd then Js.ws2 c1 c2 else Js.ws2 c2 c1).
  { destruct (IH (length l2) ltac:(simpl; lia) l2 eq_refl) as [pre Hpre].
    exists (c1 :: c2 :: pre). simpl. by rewrite <- Hpre. }
  destruct l2 as [|c3 l3]; [by exists []|].
  destruct (if fwd then Js.ws3 c1 c2 c3 else Js.ws3 c3 c2 c1); [|by exists []].
  destruct (IH (length l3) ltac:(simpl; lia) l3 eq_refl) as [pre Hpre].
  exists (c1 :: c2 :: c3 :: pre). simpl. by rewrite <- Hpre.
Qed.

Lemma dropWs_head fwd l c rest :
  Js.dropWs fwd l = c :: rest → Js.ws1 c = false.
Proof.
  remember (length l) as n eqn:Hn. revert l Hn.
  induction n as [n IH] using lt_wf_ind. intros l ->.
  destruct l as [|c1 l1]; [done|]. simpl.
  destruct (Js.ws1 c1) eqn:Hc1.
  { apply (IH (length l1)); [simpl; lia|done]. }
  destruct l1 as [|c2 l2]; [by intros [= <- <-]|].
  destruct (if fwd then Js.ws2 c1 c2 else Js.ws2 c2 c1).
  { apply (IH (length l2)); [simpl; lia|done]. }
  destruct l2 as [|c3 l3]; [by intros [= <- <-]|].
  destruct (if fwd then Js.ws3 c1 c2 c3 else Js.ws3 c3 c2 c1);
    [|by intros [= <- <-]].
  apply (IH (length l3)); [simpl; lia|done].
Qed.

(** A trimmed string neither starts nor ends with a one-byte white
    space. *)
Lemma trim_ends s c :
  (∀ rest, String.list_ascii_of_string (Js.trim s) = c :: rest → Js.ws1 c = false)
  ∧ (∀ front, String.list_ascii_of_string (Js.trim s) = front ++ [c] →
              Js.ws1 c = false).
Proof.
  unfold Js.trim. rewrite String.list_ascii_of_string_of_list_ascii.
  set (l := String.list_ascii_of_string s).
  destruct (dropWs_suffix false (rev (Js.dropWs true l))) as [pre Hpre].
  split.
  - intros rest Hrest.
    assert (Hrev : Js.dropWs true l
                   = c :: rest ++ rev pre).
    { rewrite <- (rev_involutive (Js.dropWs true l)), Hpre, rev_app_distr, Hrest.
      done. }
    by eapply dropWs_head.
  - intros front Hfront.
    apply (dropWs_head false (rev (Js.dropWs true l)) c (rev front)).
    rewrite <- (rev_involutive (Js.dropWs false _)), Hfront, rev_app_distr.
    done.
Qed.

Lemma ascii_of_code c n : nat_of_ascii c = n → c = ascii_of_nat n.
Proof. intros <-. by rewrite ascii_nat_embedding. Qed.

Lemma ws1_white c : Js.ws1 c = true → [c] ∈ whiteSpaces.
Proof.
  unfold Js.ws1. intros Hc.
  assert (Hn : nat_of_ascii c = 9 ∨ nat_of_ascii c = 10 ∨ nat_of_ascii c = 11
               ∨ nat_of_ascii c = 12 ∨ nat_of_ascii c = 13 ∨ nat_of_ascii c = 32).
  { apply orb_true_iff in Hc as [[H1 H2]%andb_true_iff|H3].
    - apply Nat.leb_le in H1, H2. lia.
    - apply Nat.eqb_eq in H3. lia. }
  apply list_elem_of_In.
  destruct Hn as [Hn|[Hn|[Hn|[Hn|[Hn|Hn]]]]];
    rewrite (ascii_of_code _ _ Hn); vm_compute; tauto.
Qed.

Lemma ws2_white c1 c2 : Js.ws2 c1 c2 = true → [c1; c2] ∈ whiteSpaces.
Proof.
  unfold Js.ws2. intros [H1 H2]%andb_true_iff.
  apply Nat.eqb_eq in H1, H2.
  rewrite (ascii_of_code _ _ H1), (ascii_of_code _ _ H2).
  apply list_elem_of_In. vm_compute. tauto.
Qed.

Lemma ws3_white c1 c2 c3 : Js.ws3 c1 c2 c3 = true → [c1; c2; c3] ∈ whiteSpaces.
Proof.
  unfold Js.ws3. intros Hc.
  assert (Hn : ∃ a b c,
             nat_of_ascii c1 = a ∧ nat_of_ascii c2 = b ∧ nat_of_ascii c3 = c
             ∧ ((a = 225 ∧ b = 154 ∧ c = 128)
                ∨ (a = 226 ∧ b = 128
                   ∧ (128 ≤ c ≤ 138 ∨ c = 168 ∨ c = 169 ∨ c = 175))
                ∨ (a = 226 ∧ b = 129 ∧ c = 159)
                ∨ (a = 227 ∧ b = 128 ∧ c = 128)
                ∨ (a = 239 ∧ b = 187 ∧ c = 191))).
  { eexists _, _, _. repeat (split; [reflexivity|]).
    repeat match type of Hc with
           | (_ || _) = true => apply orb_true_iff in Hc as [Hc|Hc]
           end;
      repeat match goal with
             | H : (_ && _) = true |- _ => apply andb_true_iff in H as [? ?]
             | H : (_ || _) = true |- _ => apply orb_true_iff in H as [?|?]
             | H : Nat.eqb _ _ = true |- _ => apply Nat.eqb_eq in H
             | H : Nat.leb _ _ = true |- _ => apply Nat.leb_le in H
             end; lia. }
  destruct Hn as (a & b & c & Ha & Hb & Hc3 & Hcases).
  rewrite (ascii_of_code _ _ Ha), (ascii_of_code _ _ Hb), (ascii_of_code _ _ Hc3).
  apply list_elem_of_In.
  clear Ha Hb Hc3 Hc.
  destruct Hcases as [(-> & -> & ->)|[(-> & -> & Hc)|[(-> & -> & ->)
                     |[(-> & -> & ->)|(-> & -> & ->)]]]];
    try (vm_compute; tauto).
  destruct Hc as [Hc|[->|[->| ->]]]; try (vm_compute; tauto).
  assert (Hv : c = 128 ∨ c = 129 ∨ c = 130 ∨ c = 131 ∨ c = 132 ∨ c = 133
               ∨ c = 134 ∨ c = 135 ∨ c = 136 ∨ c = 137 ∨ c = 138) by lia.
  clear Hc.
  repeat (destruct Hv as [->|Hv]; [vm_compute; tauto|]).
  subst c. vm_compute. tauto.
Qed.

(** Every white space is one the trimming recognises. *)
Lemma white_cases ch :
  ch ∈ whiteSpaces →
  (∃ c, ch = [c] ∧ Js.ws1 c = true)
  ∨ (∃ c1 c2, ch = [c1; c2] ∧ Js.ws1 c1 = false ∧ Js.ws2 c1 c2 = true)
  ∨ (∃ c1 c2 c3, ch = [c1; c2; c3] ∧ Js.ws1 c1 = false
                 ∧ Js.ws2 c1 c2 = false ∧ Js.ws3 c1 c2 c3 = true).
Proof.
  intros Hin. apply list_elem_of_In in Hin. unfold whiteSpaces in Hin.
  simpl in Hin.
  repeat (destruct Hin as [<-|Hin];
          [first [ left; eexists; split; [reflexivity|]; vm_compute; reflexivity
                 | right; left; eexists _, _; split; [reflexivity|];
                   vm_compute; done
                 | right; right; eexists _, _, _; split; [reflexivity|];
                   vm_compute; done ]|]).
  done.
Qed.

Lemma white_not_nil ch : ch ∈ whiteSpaces → ch ≠ [].
Proof.
  intros [(c & -> & _)|[(c1 & c2 & -> & _)|(c1 & c2 & c3 & -> & _)]]%white_cases;
    done.
Qed.

(** What [dropWs] removes is a run of white spaces, and what it leaves
    does not start with one (read in the direction of [fwd]). *)
Lemma dropWs_spec fwd l :
  ∃ chunks,
    l = concat chunks ++ Js.dropWs fwd l
    ∧ Forall (λ ch, (if fwd then ch else rev ch) ∈ whiteSpaces) chunks
    ∧ ∀ ch, ch ∈ whiteSpaces →
            ¬ (if fwd then ch else rev ch) `prefix_of` Js.dropWs fwd l.
Proof.
  remember (length l) as n eqn:Hn. revert l Hn.
  induction n as [n IH] using lt_wf_ind. intros l ->.
  assert (Hstop : ∀ ch, ch ∈ whiteSpaces →
            (∀ c, Js.ws1 c = true → ¬ [c] `prefix_of` l) →
            (∀ c1 c2, Js.ws2 c1 c2 = true →
                      ¬ (if fwd then [c1; c2] else [c2; c1]) `prefix_of` l) →
            (∀ c1 c2 c3, Js.ws3 c1 c2 c3 = true →
                         ¬ (if fwd then [c1; c2; c3] else [c3; c2; c1])
                           `prefix_of` l) →
            ¬ (if fwd then ch else rev ch) `prefix_of` l).
  { intros ch Hch H1 H2 H3.
    destruct (white_cases ch Hch)
      as [(c & -> & Hw)|[(c1 & c2 & -> & _ & Hw)
                         |(c1 & c2 & c3 & -> & _ & _ & Hw)]].
    - destruct fwd; by apply H1.
    - destruct fwd; by apply (H2 c1 c2).
    - destruct fwd; by apply (H3 c1 c2 c3). }
  destruct l as [|c1 l1].
  { exists []. split; [done|]. split; [constructor|].
    intros ch Hch [k Hk]. simpl in Hk. symmetry in Hk.
    apply app_eq_nil in Hk as [Hk _].
    apply (white_not_nil ch Hch). destruct fwd; [done|].
    by rewrite <- (rev_involutive ch), Hk. }
  simpl. destruct (Js.ws1 c1) eqn:Hc1.
  { destruct (IH (length l1) ltac:(simpl; lia) l1 eq_refl)
      as (chunks & Hl & Hall & Hno).
    exists ([c1] :: chunks). split; [simpl; by rewrite <- Hl|]. split; [|done].
    constructor; [|done]. destruct fwd; by apply ws1_white. }
  destruct l1 as [|c2 l2].
  { exists []. split; [done|]. split; [constructor|].
    intros ch Hch. apply Hstop; [done|..].
    - intros c Hw [k Hk]. simplify_eq/=. congruence.
    - intros a b Hw [k Hk]. destruct fwd; simplify_eq/=.
    - intros a b c Hw [k Hk]. destruct fwd; simplify_eq/=. }
  destruct (if fwd then Js.ws2 c1 c2 else Js.ws2 c2 c1) eqn:Hc2.
  { destruct (IH (length l2) ltac:(simpl; lia) l2 eq_refl)
      as (chunks & Hl & Hall & Hno).
    exists ([c1; c2] :: chunks). split; [simpl; by rewrite <- Hl|]. split; [|done].
    constructor; [|done]. destruct fwd; by apply ws2_white. }
  destruct l2 as [|c3 l3].
  { exists []. split; [done|]. split; [constructor|].
    intros ch Hch. apply Hstop; [done|..].
    - intros c Hw [k Hk]. simplify_eq/=. congruence.
    - intros a b Hw [k Hk]. destruct fwd; simplify_eq/=; congruence.
    - intros a b c Hw [k Hk]. destruct fwd; simplify_eq/=. }
  destruct (if fwd then Js.ws3 c1 c2 c3 else Js.ws3 c3 c2 c1) eqn:Hc3.
  { destruct (IH (length l3) ltac:(simpl; lia) l3 eq_refl)
      as (chunks & Hl & Hall & Hno).
    exists ([c1; c2; c3] :: chunks). split; [simpl; by rewrite <- Hl|].
    split; [|done].
    constructor; [|done]. destruct fwd; by apply ws3_white. }
  exists []. split; [done|]. split; [constructor|].
  intros ch Hch. apply Hstop; [done|..].
  - intros c Hw [k Hk]. simplify_eq/=. congruence.
  - intros a b Hw [k Hk]. destruct fwd; simplify_eq/=; congruence.
  - intros a b c Hw [k Hk]. destruct fwd; simplify_eq/=; congruence.
Qed.

Lemma rev_concat {A} (chunks : list (list A)) :
  rev (concat chunks) = concat (map (@rev A) (rev chunks)).
Proof.
  induction chunks as [|ch chunks IH]; [done|]. simpl.
  rewrite rev_app_distr, IH, map_app, concat_app. simpl. by rewrite app_nil_r.
Qed.

(** [Js.trim] removes exactly the surrounding white space. *)
Lemma trim_spec raw : trimmedOf raw (Js.trim raw).
Proof.
  unfold trimmedOf, Js.trim. rewrite String.list_ascii_of_string_of_list_ascii.
  set (l := String.list_ascii_of_string raw).
  destruct (dropWs_spec true l) as (pre & Hl & Hpre & Hnp).
  set (X := Js.dropWs true l) in *.
  destruct (dropWs_spec false (rev X)) as (post & HX & Hpost & Hns).
  set (Y := Js.dropWs false (rev X)) in *.
  assert (HX' : X = rev Y ++ concat (map (@rev ascii) (rev post))).
  { by rewrite <- (rev_involutive X), HX, rev_app_distr, rev_concat. }
  exists pre, (map (@rev ascii) (rev post)).
  split; [by rewrite <- HX'|]. split; [done|]. split; [|split].
  - apply Forall_forall. intros ch Hch.
    apply list_elem_of_In, in_map_iff in Hch as (ch' & <- & Hch').
    apply in_rev in Hch'. rewrite Forall_forall in Hpost.
    by apply Hpost, list_elem_of_In.
  - intros ch Hch [k Hk]. apply (Hnp ch Hch).
    exists (k ++ concat (map (@rev ascii) (rev post))).
    by rewrite HX', Hk, <- app_assoc.
  - intros ch Hch [k Hk]. apply (Hns ch Hch). exists (rev k).
    by rewrite <- (rev_involutive Y), Hk, rev_app_distr.
Qed.

(** ** Counting tokens *)

Lemma occurrences_cons x y l :
  occurrences x (y :: l) = (if String.eqb x y then 1 else 0) + occurrences x l.
Proof. unfold occurrences. simpl. by destruct (String.eqb x y). Qed.

Lemma occurrences_app x l1 l2 :
  occurrences x (l1 ++ l2) = occurrences x l1 + occurrences x l2.
Proof. unfold occurrences. by rewrite List.filter_app, length_app. Qed.

Lemma occurrences_filter (p : string → bool) x l :
  p x = true → occurrences x (List.filter p l) = occurrences x l.
Proof.
  intros Hp. induction l as [|y l IH]; [done|]. simpl.
  destruct (p y) eqn:Hy; rewrite !occurrences_cons.
  - by rewrite IH.
  - rewrite IH. destruct (String.eqb_spec x y); [congruence|done].
Qed.

Lemma occurrences_pos x l : 0 < occurrences x l ↔ x ∈ l.
Proof.
  induction l as [|y l IH].
  - split; [unfold occurrences; simpl; lia | by intros ?%elem_of_nil].
  - rewrite occurrences_cons, elem_of_cons.
    destruct (String.eqb_spec x y); [split; [tauto | lia]|].
    rewrite <- IH. split; [intros; right; lia | intros [?|?]; [done | lia]].
Qed.

Lemma includes_occurrences arr x :
  Js.includes arr x = negb (Nat.eqb (occurrences x arr) 0).
Proof.
  induction arr as [|y arr IH]; [done|].
  rewrite occurrences_cons. unfold Js.includes in *. simpl. rewrite IH.
  destruct (String.eqb x y); simpl; [done|].
  done.
Qed.

Lemma includes_elem arr x : Js.includes arr x = true ↔ x ∈ arr.
Proof.
  rewrite includes_occurrences, <- occurrences_pos.
  destruct (Nat.eqb_spec (occurrences x arr) 0); simpl; split; (lia || done).
Qed.

(** ** The rewritten class list *)

Lemma keepClass_spec themeClass cls :
  keepClass themeClass cls = true ↔ cls = BASE_CLASS ∨ cls = themeClass.
Proof.
  unfold keepClass. rewrite orb_true_iff, !String.eqb_eq. tauto.
Qed.

(** Each of the two wanted tokens occurs in the rewritten list as often
    as in the prior attribute, and once if it was absent there. *)
Lemma classList_occurrences brand mode className t :
  t = BASE_CLASS ∨ t = getThemeClass brand mode →
  occurrences t (classList brand mode className)
  = Nat.max 1 (occurrences t (classTokens className)).
Proof.
  intros Ht. unfold classList, classTokens, Js.unshift, Js.push, Js.filter.
  set (theme := getThemeClass brand mode) in *.
  assert (Hkeep : keepClass theme t = true) by by apply keepClass_spec.
  pose proof (occurrences_filter (keepClass theme) t
                (Js.split Js.space className) Hkeep) as H0.
  rewrite <- H0. clear H0.
  generalize (List.filter (keepClass theme) (Js.split Js.space className)).
  intros l0.
  rewrite (includes_occurrences l0 BASE_CLASS).
  destruct (Nat.eqb_spec (occurrences BASE_CLASS l0) 0) as [Hb0|Hb0];
    cbn [negb]; rewrite includes_occurrences.
  - rewrite (occurrences_cons theme).
    destruct (String.eqb_spec theme BASE_CLASS) as [Heq|Hne]; cbn [negb Nat.add Nat.eqb].
    + rewrite occurrences_cons.
      destruct Ht as [->| ->]; [|rewrite Heq];
        rewrite String.eqb_refl, Hb0; done.
    + destruct (Nat.eqb_spec (occurrences theme l0) 0) as [Ht0|Ht0]; cbn [negb].
      * rewrite occurrences_app, !occurrences_cons.
        replace (occurrences t []) with 0 by done.
        destruct Ht as [->| ->].
        -- rewrite String.eqb_refl, Hb0.
           destruct (String.eqb_spec BASE_CLASS theme); [congruence|]. lia.
        -- destruct (String.eqb_spec theme BASE_CLASS); [congruence|].
           rewrite String.eqb_refl, Ht0. lia.
      * rewrite occurrences_cons.
        destruct Ht as [->| ->].
        -- rewrite String.eqb_refl, Hb0. done.
        -- destruct (String.eqb_spec theme BASE_CLASS); [congruence|]. lia.
  - destruct (Nat.eqb_spec (occurrences theme l0) 0) as [Ht0|Ht0]; cbn [negb].
    + rewrite occurrences_app, occurrences_cons.
      replace (occurrences t []) with 0 by done.
      destruct Ht as [->| ->].
      * destruct (String.eqb_spec BASE_CLASS theme); [congruence|]. lia.
      * rewrite String.eqb_refl, Ht0. lia.
    + destruct Ht as [->| ->]; lia.
Qed.

Lemma classList_not_nil brand mode className :
  classList brand mode className ≠ [].
Proof.
  intros Hnil.
  pose proof (classList_occurrences brand mode className BASE_CLASS (or_introl eq_refl)) as H.
  rewrite Hnil in H. unfold occurrences in H. simpl in H. lia.
Qed.

(** Every token of the rewritten list is one of the two wanted ones, and
    both are there. *)
Lemma classList_elem brand mode className t :
  t ∈ classList brand mode className ↔ t = BASE_CLASS ∨ t = getThemeClass brand mode.
Proof.
  split.
  - unfold classList, Js.unshift, Js.push, Js.filter.
    set (theme := getThemeClass brand mode).
    set (l0 := List.filter (keepClass theme) (Js.split Js.space className)).
    assert (H0 : ∀ x, x ∈ l0 → x = BASE_CLASS ∨ x = theme).
    { intros x Hx. apply keepClass_spec.
      apply list_elem_of_In, List.filter_In in Hx. tauto. }
    destruct (negb (Js.includes l0 BASE_CLASS));
      [destruct (negb (Js.includes (BASE_CLASS :: l0) theme))
      |destruct (negb (Js.includes l0 theme))];
      rewrite ?elem_of_app, ?elem_of_cons, ?elem_of_nil;
      intuition auto.
  - intros Ht. apply occurrences_pos.
    rewrite (classList_occurrences _ _ _ _ Ht). lia.
Qed.

Lemma BASE_CLASS_no_space : Js.has_char Js.space BASE_CLASS = false.
Proof. reflexivity. Qed.

(** When the theme class holds no space, reading the written attribute
    back gives the rewritten list. *)
Lemma classTokens_themedClassName brand mode className :
  Js.has_char Js.space (getThemeClass brand mode) = false →
  classTokens (themedClassName brand mode className)
  = classList brand mode className.
Proof.
  intros Hsp. unfold classTokens, themedClassName.
  apply split_join; [apply classList_not_nil|].
  apply Forall_forall.
  intros t [->| ->]%classList_elem; [apply BASE_CLASS_no_space|done].
Qed.

(** ** Writing an element's text *)

Lemma assignTextContent_lookup i v doc j :
  assignTextContent i v doc !! j
  = (λ e, (if decide (j = i) then setText v else id)
            (if inside doc i j then detach e else e)) <$> doc !! j.
Proof.
  unfold assignTextContent, removeChildren.
  destruct (decide (j = i)) as [->|Hne].
  - rewrite list_lookup_alter_eq, list_lookup_imap. by destruct (doc !! i).
  - rewrite list_lookup_alter_ne, list_lookup_imap by done. by destruct (doc !! j).
Qed.

Lemma assignTextContent_skeleton i v doc :
  skeleton (assignTextContent i v doc) = skeleton doc.
Proof.
  apply list_eq. intros j. unfold skeleton.
  rewrite !list_lookup_fmap, assignTextContent_lookup.
  destruct (doc !! j) as [e|]; [|done]. simpl. f_equal.
  by destruct (decide (j = i)), (inside doc i j).
Qed.

Lemma assignTextContent_text_eq i v doc e :
  doc !! i = Some e →
  el_textContent <$> assignTextContent i v doc !! i = Some v.
Proof.
  intros He. rewrite assignTextContent_lookup, He. simpl.
  rewrite decide_True by done. by destruct (inside doc i i).
Qed.

Lemma assignTextContent_text_ne i v doc j :
  j ≠ i →
  el_textContent <$> assignTextContent i v doc !! j = el_textContent <$> doc !! j.
Proof.
  intros Hne. rewrite assignTextContent_lookup.
  destruct (doc !! j) as [e|]; [|done]. simpl.
  rewrite decide_False by done. by destruct (inside doc i j).
Qed.

Lemma assignTextContent_fewer i v doc :
  fewer_attached doc (assignTextContent i v doc).
Proof.
  intros j (e' & He' & Hatt). rewrite assignTextContent_lookup in He'.
  destruct (doc !! j) as [e|] eqn:He; [|done]. exists e. split; [done|].
  simpl in He'. injection He' as <-.
  by destruct (decide (j = i)), (inside doc i j).
Qed.

Lemma assignTextContent_attached i v doc j :
  attached doc j → inside doc i j = false →
  attached (assignTextContent i v doc) j.
Proof.
  intros (e & He & Hatt) Hout. unfold attached.
  rewrite assignTextContent_lookup, He, Hout. simpl.
  eexists. split; [reflexivity|]. by destruct (decide (j = i)).
Qed.

Lemma fewer_attached_refl doc : fewer_attached doc doc.
Proof. by intros i. Qed.

Lemma fewer_attached_trans doc1 doc2 doc3 :
  fewer_attached doc1 doc2 → fewer_attached doc2 doc3 → fewer_attached doc1 doc3.
Proof. intros H12 H23 i Hi. by apply H12, H23. Qed.

Lemma skeleton_lookup doc doc' i e' :
  skeleton doc' = skeleton doc → doc' !! i = Some e' →
  ∃ e, doc !! i = Some e ∧ erase e = erase e'.
Proof.
  intros Hsk He'. apply (f_equal (λ l, l !! i)) in Hsk.
  unfold skeleton in Hsk. rewrite !list_lookup_fmap, He' in Hsk.
  destruct (doc !! i) as [e|]; [|done]. exists e. split; [done|].
  apply (inj Some). symmetry. exact Hsk.
Qed.

Lemma skeleton_length doc doc' :
  skeleton doc' = skeleton doc → length doc' = length doc.
Proof.
  intros Hsk. apply (f_equal length) in Hsk. unfold skeleton in Hsk.
  by rewrite !length_fmap in Hsk.
Qed.

(** Descent is read off the parents, which no write changes. *)
Lemma inside_skeleton doc doc' a j :
  skeleton doc' = skeleton doc → inside doc' a j = inside doc a j.
Proof.
  intros Hsk. unfold inside. rewrite (skeleton_length _ _ Hsk).
  assert (Hpar : ∀ k, doc' !! k ≫= el_parent = doc !! k ≫= el_parent).
  { intros k. destruct (doc' !! k) as [e'|] eqn:He'.
    - destruct (skeleton_lookup _ _ _ _ Hsk He') as (e & -> & Her). simpl.
      by injection Her.
    - destruct (doc !! k) as [e|] eqn:He; [|done].
      symmetry in Hsk. destruct (skeleton_lookup _ _ _ _ Hsk He) as (? & ? & _).
      congruence. }
  generalize (length doc). intros fuel. revert j.
  induction fuel as [|fuel IH]; intros j; simpl; [done|].
  rewrite Hpar. destruct (doc !! j ≫= el_parent) as [p|]; [|done].
  by rewrite IH.
Qed.

(** ** Looking elements up *)

Lemma elementById_Some id doc i :
  elementById id doc = Some i →
  ∃ e, doc !! i = Some e ∧ el_attached e = true ∧ el_id e = Some id.
Proof.
  unfold elementById. intros Hfind.
  destruct (list_find _ doc) as [[j e]|] eqn:Hf; simplify_eq/=.
  apply list_find_Some in Hf as (Hl & [Hatt Hid] & _). eauto.
Qed.

(** The element an id designates is still the one it designates after
    writes, as long as it is still in the document. *)
Lemma elementById_stable id doc doc' i :
  skeleton doc' = skeleton doc →
  fewer_attached doc doc' →
  elementById id doc = Some i →
  attached doc' i →
  elementById id doc' = Some i.
Proof.
  unfold elementById. intros Hsk Hfew Hfind (e' & He' & Hatt').
  destruct (list_find _ doc) as [[j e]|] eqn:Hf; simplify_eq/=.
  apply list_find_Some in Hf as (Hl & [Hatt Hid] & Hfirst).
  destruct (skeleton_lookup _ _ _ _ Hsk He') as (e0 & He0 & Her).
  assert (e0 = e) as -> by congruence.
  assert (Hfind' : list_find (λ e, el_attached e = true ∧ el_id e = Some id) doc'
                   = Some (i, e')).
  { apply list_find_Some. split; [done|]. split.
    - split; [done|]. injection Her as Hid' _. congruence.
    - intros k y Hy Hlt [Hyatt Hyid].
      destruct (Hfew k) as (x & Hx & Hxatt); [by exists y|].
      destruct (skeleton_lookup _ _ _ _ Hsk Hy) as (x0 & Hx0 & Hxr).
      assert (x0 = x) as -> by congruence.
      apply (Hfirst k x Hx Hlt). split; [done|].
      injection Hxr as Hid' _. congruence. }
  by rewrite Hfind'.
Qed.

Lemma swatchValuesFrom_elem doc :
  ∀ k i, i ∈ swatchValuesFrom k doc
         ↔ ∃ j e, i = k + j ∧ doc !! j = Some e
                  ∧ isSwatchValue e = true ∧ el_attached e = true.
Proof.
  induction doc as [|e0 doc IH]; intros k i; simpl.
  - split; [by intros ?%elem_of_nil|by intros (j & e & _ & ? & _)].
  - assert (Hrest : i ∈ swatchValuesFrom (S k) doc
                    ↔ ∃ j e, i = k + S j ∧ doc !! j = Some e
                             ∧ isSwatchValue e = true ∧ el_attached e = true).
    { rewrite IH. split; intros (j & e & -> & Hrest); exists j, e;
        (split; [lia|done]). }
    destruct (isSwatchValue e0 && el_attached e0) eqn:Hm.
    + rewrite elem_of_cons, Hrest. apply andb_true_iff in Hm as [Hs Ha]. split.
      * intros [->|(j & e & -> & He & Hse & Hae)].
        -- exists 0, e0. split; [lia|done].
        -- exists (S j), e. done.
      * intros ([|j] & e & -> & He & Hse & Hae).
        -- left. lia.
        -- right. exists j, e. done.
    + rewrite Hrest. split.
      * intros (j & e & -> & He & Hse & Hae). exists (S j), e. done.
      * intros ([|j] & e & -> & He & Hse & Hae).
        -- simpl in He. injection He as <-. by rewrite Hse, Hae in Hm.
        -- exists j, e. done.
Qed.

Lemma swatchValuesFrom_NoDup doc : ∀ k, NoDup (swatchValuesFrom k doc).
Proof.
  induction doc as [|e0 doc IH]; intros k; simpl; [constructor|].
  destruct (isSwatchValue e0 && el_attached e0); [|apply IH].
  apply NoDup_cons. split; [|apply IH].
  intros (j & e & Hk & _)%swatchValuesFrom_elem. lia.
Qed.

Lemma swatchValues_swatchNode doc i :
  i ∈ swatchValuesFrom 0 doc ↔ swatchNode doc i.
Proof.
  rewrite swatchValuesFrom_elem. unfold swatchNode. split.
  - intros (j & e & -> & He). by exists e.
  - intros (e & He). by exists i, e.
Qed.

(** ** Running the script monad *)

Section Monad_facts.
Context {Store : Type}.
Implicit Type w : World Store.

Lemma bind_ok {A B} (m : M Store A) (k : A → M Store B) w a w1 :
  m w = (Ok a, w1) → bind m k w = k a w1.
Proof. unfold bind. by intros ->. Qed.

Lemma refreshed_refl w : refreshed w w.
Proof.
  repeat split. exists []. by rewrite app_nil_r.
Qed.

Lemma refreshed_trans w1 w2 w3 :
  refreshed w1 w2 → refreshed w2 w3 → refreshed w1 w3.
Proof.
  intros (Hc1 & Hd1 & Hx1 & Hb1 & Hm1 & Hs1 & Ho1 & Hl1 & evs1 & Ht1 & He1)
         (Hc2 & Hd2 & Hx2 & Hb2 & Hm2 & Hs2 & Ho2 & Hl2 & evs2 & Ht2 & He2).
  repeat split; try congruence.
  exists (evs1 ++ evs2). split.
  - by rewrite Ht2, Ht1, app_assoc.
  - apply Forall_app. split; [done|]. by rewrite <- Hc1.
Qed.

Lemma emit_refreshed e w :
  display_event (w_className w) e → refreshed w (emit e w).
Proof.
  intros He. repeat split. exists [e]. split; [done|]. by constructor.
Qed.

Lemma text_write_refreshed i v w :
  refreshed w
    (emit (EvTextWrite i v)
       (with_document (assignTextContent i v (w_document w)) w)).
Proof.
  repeat split; simpl.
  - apply assignTextContent_skeleton.
  - exists [EvTextWrite i v]. split; [done|]. by constructor.
Qed.

(** A loop whose body always completes and only refreshes, completes and
    only refreshes. *)
Lemma forEach_refreshed {A} (f : A → M Store unit) (arr : list A) :
  (∀ x w, ∃ w', f x w = (Ok tt, w') ∧ refreshed w w') →
  ∀ w, ∃ w', forEach f arr w = (Ok tt, w') ∧ refreshed w w'.
Proof.
  intros Hf. induction arr as [|x arr IH]; intros w; simpl.
  - exists w. split; [done|apply refreshed_refl].
  - destruct (Hf x w) as (w1 & Hx & Hr1).
    destruct (IH w1) as (w2 & Hrest & Hr2).
    exists w2. split; [by rewrite (bind_ok _ _ _ _ _ Hx)|].
    by eapply refreshed_trans.
Qed.

End Monad_facts.

(** ** Display refreshers *)

Section Refresher_facts.
Context {Store : Type} `{WebStorage Store}.
Variable computedValue : string → string → string.
Implicit Type w : World Store.

Lemma updateClassDisplay_effect w :
  ∃ w', updateClassDisplay w = (Ok tt, w')
        ∧ refreshed w w'
        ∧ w_document w'
          = match w_classesDisplay w with
            | Some i => assignTextContent i (w_className w) (w_document w)
            | None => w_document w
            end.
Proof.
  unfold updateClassDisplay, bind, getClassesDisplay.
  destruct (w_classesDisplay w) as [i|] eqn:Hd; simpl.
  - eexists. split; [reflexivity|]. split; [|done].
    eapply refreshed_trans;
      [|apply (text_write_refreshed i (w_className w) (emit EvClassRead w))].
    by apply emit_refreshed.
  - exists w. split; [done|]. split; [apply refreshed_refl|done].
Qed.

Lemma updateClassDisplay_spec w :
  ∃ w', updateClassDisplay w = (Ok tt, w') ∧ refreshed w w'.
Proof.
  destruct (updateClassDisplay_effect w) as (w' & Hrun & Hr & _). by exists w'.
Qed.

Lemma swatchCallback_effect element w :
  ∃ w', swatchCallback computedValue element w = (Ok tt, w')
        ∧ refreshed w w'
        ∧ w_document w'
          = assignTextContent element
              (Js.trim
                 (computedValue (w_className w)
                    (default "null" (w_document w !! element ≫= el_data_var))))
              (w_document w).
Proof.
  unfold swatchCallback, bind, getAttribute_data_var, getPropertyValue. simpl.
  eexists. split; [reflexivity|]. split; [|done].
  eapply refreshed_trans;
    [|apply (text_write_refreshed element _ (emit (EvStyleRead _ _) w))].
  by apply emit_refreshed.
Qed.

(** The loop of [updateSwatchValues] over a static list of distinct
    elements: every element of the list is written, in or out of the
    document; no other text changes; an element leaves the document only
    from inside an element of the list. *)
Lemma swatch_forEach (nodes : list nat) :
  NoDup nodes →
  ∀ w, ∃ w',
    forEach (swatchCallback computedValue) nodes w = (Ok tt, w')
    ∧ refreshed w w'
    ∧ fewer_attached (w_document w) (w_document w')
    ∧ (∀ i e, i ∈ nodes → w_document w !! i = Some e →
              el_textContent <$> w_document w' !! i
              = Some (Js.trim (computedValue (w_className w)
                                 (default "null" (el_data_var e)))))
    ∧ (∀ i, i ∉ nodes →
            el_textContent <$> w_document w' !! i
            = el_textContent <$> w_document w !! i)
    ∧ (∀ j, attached (w_document w) j →
            (∀ i, i ∈ nodes → inside (w_document w) i j = false) →
            attached (w_document w') j).
Proof.
  induction nodes as [|i0 nodes IH]; intros Hnd w.
  - exists w. split; [done|]. split; [apply refreshed_refl|].
    split; [apply fewer_attached_refl|].
    split; [by intros ? ? ?%elem_of_nil|]. done.
  - apply NoDup_cons in Hnd as [Hfresh Hnd].
    destruct (swatchCallback_effect i0 w) as (w1 & Hrun1 & Hr1 & Hdoc1).
    destruct (IH Hnd w1) as (w2 & Hrun2 & Hr2 & Hfew2 & Hin2 & Hout2 & Hatt2).
    assert (Hcls : w_className w1 = w_className w) by apply Hr1.
    assert (Hsk : skeleton (w_document w1) = skeleton (w_document w)) by apply Hr1.
    exists w2. split; [simpl; by rewrite (bind_ok _ _ _ _ _ Hrun1)|].
    split; [by eapply refreshed_trans|].
    split.
    { eapply fewer_attached_trans; [|done]. rewrite Hdoc1.
      apply assignTextContent_fewer. }
    split; [|split].
    + intros i e [->|Hin]%elem_of_cons He.
      * rewrite (Hout2 i0 Hfresh), Hdoc1, He. simpl.
        by apply assignTextContent_text_eq with e.
      * assert (He1 : ∃ e1, w_document w1 !! i = Some e1
                            ∧ el_data_var e1 = el_data_var e).
        { rewrite Hdoc1, assignTextContent_lookup, He. simpl. eexists.
          split; [reflexivity|].
          by destruct (decide (i = i0)), (inside (w_document w) i0 i). }
        destruct He1 as (e1 & He1 & Hvar).
        rewrite (Hin2 i e1 Hin He1). by rewrite Hcls, Hvar.
    + intros i Hnot. apply not_elem_of_cons in Hnot as [Hne Hnot].
      rewrite (Hout2 i Hnot), Hdoc1. by apply assignTextContent_text_ne.
    + intros j Hj Hclear. apply Hatt2.
      * rewrite Hdoc1. apply assignTextContent_attached; [done|].
        apply Hclear. by left.
      * intros i Hin. rewrite (inside_skeleton _ _ _ _ Hsk). apply Hclear. by right.
Qed.

Lemma updateSwatchValues_nodes w :
  ∃ w', updateSwatchValues computedValue w = (Ok tt, w')
        ∧ refreshed w w'
        ∧ fewer_attached (w_document w) (w_document w')
        ∧ (∀ i e, w_document w !! i = Some e →
                  isSwatchValue e = true → el_attached e = true →
                  el_textContent <$> w_document w' !! i
                  = Some (Js.trim (computedValue (w_className w)
                                     (default "null" (el_data_var e)))))
        ∧ (∀ i, ¬ swatchNode (w_document w) i →
                el_textContent <$> w_document w' !! i
                = el_textContent <$> w_document w !! i)
        ∧ (∀ j, attached (w_document w) j →
                (∀ i, swatchNode (w_document w) i →
                      inside (w_document w) i j = false) →
                attached (w_document w') j).
Proof.
  destruct (swatch_forEach (swatchValuesFrom 0 (w_document w))
              (swatchValuesFrom_NoDup _ 0) w)
    as (w' & Hrun & Hr & Hfew & Hin & Hout & Hatt).
  exists w'. split.
  { unfold updateSwatchValues, querySelectorAll_swatchValues.
    by rewrite (bind_ok _ _ w (swatchValuesFrom 0 (w_document w)) w). }
  split; [done|]. split; [done|]. split; [|split].
  - intros i e He Hs Ha. apply Hin; [|done].
    apply swatchValues_swatchNode. by exists e.
  - intros i Hnot. apply Hout. by rewrite swatchValues_swatchNode.
  - intros j Hj Hclear. apply Hatt; [done|].
    intros i Hi. apply Hclear. by apply swatchValues_swatchNode.
Qed.

Lemma updateSwatchValues_spec w :
  ∃ w', updateSwatchValues computedValue w = (Ok tt, w') ∧ refreshed w w'.
Proof.
  destruct (updateSwatchValues_nodes w) as (w' & Hrun & Hr & _). by exists w'.
Qed.

(** One table entry: a missing element is skipped, one that is in the
    document receives the trimmed resolved value and loses its
    children. *)
Lemma tokenCallback_spec id var w :
  ∃ w', tokenCallback computedValue (id, var) w = (Ok tt, w')
        ∧ refreshed w w'
        ∧ w_document w'
          = match elementById id (w_document w) with
            | Some i =>
                assignTextContent i
                  (Js.trim (computedValue (w_className w) var)) (w_document w)
            | None => w_document w
            end.
Proof.
  unfold tokenCallback, bind, getElementById, getPropertyValue.
  destruct (elementById id (w_document w)) as [i|]; simpl.
  - eexists. split; [reflexivity|]. split; [|done].
    eapply refreshed_trans;
      [|apply (text_write_refreshed i _ (emit (EvStyleRead _ _) w))].
    by apply emit_refreshed.
  - exists w. split; [done|]. split; [apply refreshed_refl|done].
Qed.

(** The loop over a table with pairwise distinct ids.  An entry whose
    element is found before the loop and is still in the document after
    it has been written; an element carrying no id of the table keeps its
    text; an element leaves the document only from inside an element
    carrying an id of the table. *)
Lemma token_table_spec (table : list (string * string)) :
  NoDup table.*1 →
  ∀ w, ∃ w',
    forEach (tokenCallback computedValue) table w = (Ok tt, w')
    ∧ refreshed w w'
    ∧ fewer_attached (w_document w) (w_document w')
    ∧ (∀ id var i, (id, var) ∈ table →
            elementById id (w_document w) = Some i →
            attached (w_document w') i →
            el_textContent <$> w_document w' !! i
            = Some (Js.trim (computedValue (w_className w) var)))
    ∧ (∀ i, ¬ tableNode table (w_document w) i →
            el_textContent <$> w_document w' !! i
            = el_textContent <$> w_document w !! i)
    ∧ (∀ j, attached (w_document w) j →
            (∀ i, tableNode table (w_document w) i →
                  inside (w_document w) i j = false) →
            attached (w_document w') j).
Proof.
  induction table as [|[id0 var0] table IH]; intros Hnd w.
  - exists w. split; [done|]. split; [apply refreshed_refl|].
    split; [apply fewer_attached_refl|].
    split; [by intros ? ? ? ?%elem_of_nil|]. done.
  - apply NoDup_cons in Hnd as [Hfresh Hnd].
    destruct (tokenCallback_spec id0 var0 w) as (w1 & Hrun1 & Hr1 & Hdoc1).
    destruct (IH Hnd w1) as (w2 & Hrun2 & Hr2 & Hfew2 & Hset2 & Hkeep2 & Hatt2).
    assert (Hcls : w_className w1 = w_className w) by apply Hr1.
    assert (Hsk : skeleton (w_document w1) = skeleton (w_document w)) by apply Hr1.
    assert (Hfew1 : fewer_attached (w_document w) (w_document w1)).
    { rewrite Hdoc1. destruct (elementById id0 (w_document w));
        [apply assignTextContent_fewer|apply fewer_attached_refl]. }
    assert (Hnode : ∀ i, tableNode table (w_document w1) i →
                         tableNode ((id0, var0) :: table) (w_document w) i).
    { intros i (e1 & id & var & He1 & Hid & Hin).
      destruct (skeleton_lookup _ _ _ _ Hsk He1) as (e & He & Her).
      exists e, id, var. split; [done|]. split; [|by right].
      injection Her as Hid' _. congruence. }
    exists w2. split; [simpl; by rewrite (bind_ok _ _ _ _ _ Hrun1)|].
    split; [by eapply refreshed_trans|].
    split; [by eapply fewer_attached_trans|].
    split; [|split].
    + intros id var i [Heq|Hin]%elem_of_cons Hi Hlast.
      * simplify_eq. destruct (elementById_Some _ _ _ Hi) as (e & He & _ & Hid).
        rewrite Hkeep2.
        -- rewrite Hdoc1, Hi. by apply assignTextContent_text_eq with e.
        -- intros (e1 & id & var & He1 & Hid1 & Hin).
           destruct (skeleton_lookup _ _ _ _ Hsk He1) as (e0 & He0 & Her).
           assert (e0 = e) as -> by congruence.
           injection Her as Hid' _.
           assert (id = id0) as -> by congruence.
           apply Hfresh. by apply (list_elem_of_fmap_2 fst _ (id0, var)).
      * rewrite <- Hcls. apply (Hset2 id var i Hin); [|done].
        apply (elementById_stable id (w_document w)); try done.
        by apply Hfew2.
    + intros i Hnot. rewrite Hkeep2 by (intros ?; by apply Hnot, Hnode).
      rewrite Hdoc1.
      destruct (elementById id0 (w_document w)) as [i0|] eqn:Hi0; [|done].
      apply assignTextContent_text_ne. intros ->. apply Hnot.
      destruct (elementById_Some _ _ _ Hi0) as (e & He & _ & Hid).
      exists e, id0, var0. split; [done|]. split; [done|]. by left.
    + intros j Hj Hclear. apply Hatt2.
      * rewrite Hdoc1.
        destruct (elementById id0 (w_document w)) as [i0|] eqn:Hi0; [|done].
        apply assignTextContent_attached; [done|]. apply Hclear.
        destruct (elementById_Some _ _ _ Hi0) as (e & He & _ & Hid).
        exists e, id0, var0. split; [done|]. split; [done|]. by left.
      * intros i Hi. rewrite (inside_skeleton _ _ _ _ Hsk). by apply Hclear, Hnode.
Qed.

Lemma tokenMap_NoDup : NoDup tokenMap.*1.
Proof. apply (bool_decide_unpack _). vm_compute. reflexivity. Qed.

End Refresher_facts.

(** ** Theme controller and preference store *)

Section Controller_facts.
Context {Store : Type} `{WebStorage Store}.
Variable computedValue : string → string → string.
Implicit Type w : World Store.

Lemma updateComponentTokenValues_refreshed w :
  ∃ w', updateComponentTokenValues computedValue w = (Ok tt, w') ∧ refreshed w w'.
Proof.
  destruct (token_table_spec computedValue tokenMap tokenMap_NoDup w)
    as (w' & Hrun & Hr & _).
  by exists w'.
Qed.

(** [applyTheme] always completes, and is one visual apply. *)
Lemma applyTheme_spec brand mode w :
  ∃ w', applyTheme computedValue brand mode w = (Ok tt, w') ∧ themed brand mode w w'.
Proof.
  unfold applyTheme.
  set (c := Js.join " " (classList brand mode (w_className w))).
  set (w0 := emit (EvClassWrite c) (with_className c (emit EvClassRead w))).
  destruct (updateClassDisplay_spec w0) as (w1 & Hrun1 & Hr1).
  destruct (updateSwatchValues_spec computedValue w1) as (w2 & Hrun2 & Hr2).
  destruct (updateComponentTokenValues_refreshed w2) as (w3 & Hrun3 & Hr3).
  exists w3. split.
  - rewrite (bind_ok _ _ w (w_className w) (emit EvClassRead w)) by done.
    rewrite (bind_ok _ _ _ tt w0) by done.
    rewrite (bind_ok _ _ _ _ _ Hrun1), (bind_ok _ _ _ _ _ Hrun2). done.
  - pose proof (refreshed_trans _ _ _ (refreshed_trans _ _ _ Hr1 Hr2) Hr3)
      as (Hc & Hd & Hx & Hb & Hm & Hs & Ho & Hl & evs & Ht & He).
    unfold themed. fold c. repeat split; try done.
    exists evs. split; [|done].
    rewrite Ht. simpl. by rewrite <- !app_assoc.
Qed.

(** [saveToStorage] always completes; it touches only the store and,
    on a failed write, the console; its first act is the brand write. *)
Lemma saveToStorage_spec brand mode w :
  ∃ w', saveToStorage brand mode w = (Ok tt, w')
        ∧ stored w w'
        ∧ w_localStorage w' = (saveOutcome (w_localStorage w) brand mode).1
        ∧ w_console w'
          = w_console w
            ++ match (saveOutcome (w_localStorage w) brand mode).2 with
               | Some e => [Warn "Failed to save theme preferences:" e]
               | None => []
               end
        ∧ ∃ rest, w_trace w'
                  = w_trace w ++ EvStorageWrite STORAGE_KEY_BRAND brand :: rest
                  ∧ Forall store_event rest.
Proof.
  unfold saveToStorage, try_catch, bind, localStorage_setItem, console_warn, saveOutcome.
  simpl.
  destruct (setItem (w_localStorage w) STORAGE_KEY_BRAND brand) as [s1|e1]; simpl.
  - destruct (setItem s1 STORAGE_KEY_MODE mode) as [s2|e2]; simpl.
    + eexists. split; [reflexivity|]. simpl.
      split; [|split; [done|split; [by rewrite app_nil_r|]]].
      * repeat split. eexists [_; _]. simpl. rewrite <- app_assoc.
        split; [reflexivity|]. by repeat constructor.
      * eexists [_]. rewrite <- app_assoc. split; [reflexivity|].
        by repeat constructor.
    + eexists. split; [reflexivity|]. simpl.
      split; [|split; [done|split; [done|]]].
      * repeat split. eexists [_; _; _]. simpl. rewrite <- !app_assoc.
        split; [reflexivity|]. by repeat constructor.
      * eexists [_; _]. rewrite <- !app_assoc. split; [reflexivity|].
        by repeat constructor.
  - eexists. split; [reflexivity|]. simpl.
    split; [|split; [done|split; [done|]]].
    + repeat split. eexists [_; _]. simpl. rewrite <- !app_assoc.
      split; [reflexivity|]. by repeat constructor.
    + eexists [_]. rewrite <- !app_assoc. split; [reflexivity|].
      by repeat constructor.
Qed.

(** [loadFromStorage] always completes, with both fields absent when a
    read throws. *)
Lemma loadFromStorage_spec w :
  ∃ w', loadFromStorage w = (Ok (loadOutcome (w_localStorage w)), w')
        ∧ stored w w'
        ∧ w_localStorage w' = w_localStorage w.
Proof.
  unfold loadFromStorage, try_catch, bind, localStorage_getItem, console_warn,
    ret, loadOutcome.
  simpl.
  destruct (getItem (w_localStorage w) STORAGE_KEY_BRAND) as [b|e1]; simpl.
  - destruct (getItem (w_localStorage w) STORAGE_KEY_MODE) as [m|e2]; simpl.
    + eexists. split; [reflexivity|]. simpl. split; [|done].
      repeat split. eexists [_; _]. simpl. rewrite <- app_assoc.
      split; [reflexivity|]. by repeat constructor.
    + eexists. split; [reflexivity|]. simpl. split; [|done].
      repeat split. eexists [_; _; _]. simpl. rewrite <- !app_assoc.
      split; [reflexivity|]. by repeat constructor.
  - eexists. split; [reflexivity|]. simpl. split; [|done].
    repeat split. eexists [_; _]. simpl. rewrite <- !app_assoc.
    split; [reflexivity|]. by repeat constructor.
Qed.

(** Both handlers: read the two controls, apply, then save. *)
Lemma runHandler_spec h w sb sm :
  w_brandSelect w = Some sb →
  w_modeSelect w = Some sm →
  runHandler computedValue h w
  = (applyTheme computedValue (sel_value sb) (sel_value sm) ;;
     saveToStorage (sel_value sb) (sel_value sm)) w.
Proof.
  intros Hb Hm.
  destruct h; unfold runHandler, handleBrandChange, handleModeChange;
    rewrite (bind_ok _ _ w (sel_value sb) w)
      by (unfold getValue; simpl; by rewrite Hb);
    rewrite (bind_ok _ _ w (sel_value sm) w)
      by (unfold getValue; simpl; by rewrite Hm);
    done.
Qed.

(** Start-up, when both controls exist: it always completes, applying
    the loadOutcome selection with [||] defaults. *)
Lemma init_spec w sb sm :
  w_brandSelect w = Some sb →
  w_modeSelect w = Some sm →
  let brand := Js.or_else (saved_brand (loadOutcome (w_localStorage w))) "Brand-A" in
  let mode := Js.or_else (saved_mode (loadOutcome (w_localStorage w))) "Lightmode" in
  ∃ w', init computedValue w = (Ok tt, w')
        ∧ w_className w' = themedClassName brand mode (w_className w)
        ∧ w_brandSelect w' = Some (sel_setValue brand sb)
        ∧ w_modeSelect w' = Some (sel_setValue mode sm)
        ∧ w_localStorage w' = w_localStorage w
        ∧ w_listeners w'
          = w_listeners w ++ [(BrandSelect, HandleBrandChange);
                              (ModeSelect, HandleModeChange)]
        ∧ ∃ entries, w_console w'
            = entries ++ [Log "Theme system initialized:" brand mode
                            (getThemeClass brand mode) (w_className w')].
Proof.
  intros Hb Hm brand mode. unfold init.
  destruct (loadFromStorage_spec w)
    as (w1 & Hrun1 & (Hc1 & Hd1 & Hx1 & Hb1 & Hm1 & Hl1 & _) & Hs1).
  rewrite (bind_ok _ _ _ _ _ Hrun1). fold brand mode.
  set (w2 := with_select BrandSelect (Some (sel_setValue brand sb)) w1).
  rewrite (bind_ok _ _ w1 tt w2)
    by (unfold setValue; simpl; by rewrite Hb1, Hb).
  set (w3 := with_select ModeSelect (Some (sel_setValue mode sm)) w2).
  rewrite (bind_ok _ _ w2 tt w3)
    by (unfold setValue; simpl; by rewrite Hm1, Hm).
  destruct (applyTheme_spec brand mode w3)
    as (w4 & Hrun4 & Hc4 & Hd4 & Hx4 & Hb4 & Hm4 & Hs4 & Ho4 & Hl4 & _).
  rewrite (bind_ok _ _ _ _ _ Hrun4).
  simpl in Hc4, Hb4, Hm4, Hs4, Hl4.
  set (w5 := with_listeners (w_listeners w4 ++ [(BrandSelect, HandleBrandChange)]) w4).
  rewrite (bind_ok _ _ w4 tt w5)
    by (unfold addEventListener; simpl; by rewrite Hb4).
  set (w6 := with_listeners (w_listeners w5 ++ [(ModeSelect, HandleModeChange)]) w5).
  rewrite (bind_ok _ _ w5 tt w6)
    by (unfold addEventListener; simpl; by rewrite Hm4).
  rewrite (bind_ok _ _ w6 (w_className w6) (emit EvClassRead w6)) by done.
  eexists. split; [reflexivity|]. simpl.
  rewrite Hc4, Hc1, Hb4, Hm4, Hs4, Hs1, Hl4, Hl1, <- app_assoc.
  repeat split. by eexists.
Qed.

End Controller_facts.

(** ** The sample storage area obeys the laws of the medium *)

Lemma area_get_put_eq key value items :
  area_get key (area_put key value items) = Some value.
Proof.
  induction items as [|[k v] items IH]; simpl.
  - by rewrite String.eqb_refl.
  - destruct (String.eqb k key) eqn:Hk; simpl.
    + by rewrite String.eqb_refl.
    + by rewrite Hk.
Qed.

Lemma area_get_put_ne key value items key' :
  key' ≠ key → area_get key' (area_put key value items) = area_get key' items.
Proof.
  intros Hne. induction items as [|[k v] items IH]; simpl.
  - destruct (String.eqb_spec key key'); [congruence|done].
  - destruct (String.eqb_spec k key) as [->|Hk]; simpl.
    + destruct (String.eqb_spec key key'); [congruence|done].
    + by rewrite IH.
Qed.

#[export] Instance StorageArea_lawful : LawfulStorage StorageArea.
Proof.
  split; simpl; unfold area_setItem, area_getItem.
  - intros s k v s'. destruct (area_denied s) eqn:Hd; [done|].
    destruct (Nat.ltb _ _); [done|]. intros [= <-]. simpl.
    by rewrite ?Hd, area_get_put_eq.
  - intros s k v s' k'. destruct (area_denied s) eqn:Hd; [done|].
    destruct (Nat.ltb _ _); [done|]. intros [= <-] Hne. simpl.
    by rewrite ?Hd, area_get_put_ne.
Qed.

(** ** Sample runs *)

Example trim_tab : Js.trim "  100px " = "100px".
Proof. reflexivity. Qed.

Example trim_inner_space :
  Js.trim " Satoshi Variable, sans-serif" = "Satoshi Variable, sans-serif".
Proof. reflexivity. Qed.

Example split_double_space : Js.split Js.space "a  b" = ["a"; ""; "b"].
Proof. reflexivity. Qed.

Example themed_switch :
  themedClassName "Brand-B" "Darkmode" "foo Headless-base Brand-A-Lightmode"
  = "Headless-base Brand-B-Darkmode".
Proof. reflexivity. Qed.

Example themed_keeps_order :
  themedClassName "Brand-A" "Lightmode" "Brand-A-Lightmode x Headless-base"
  = "Brand-A-Lightmode Headless-base".
Proof. reflexivity. Qed.

Example handler_run :
  let w' := (handleBrandChange demoStyles (demoWorld "no-js" emptyArea)).2 in
  w_className w' = "Headless-base Brand-B-Darkmode"
  ∧ el_textContent <$> w_document w' = ["Headless-base Brand-B-Darkmode"; "0px"; "4px"; "4px"]
  ∧ area_items (w_localStorage w')
    = [(STORAGE_KEY_BRAND, "Brand-B"); (STORAGE_KEY_MODE, "Darkmode")].
Proof. vm_compute. done. Qed.

(** ** The theme class *)

(** C7: [getThemeClass] returns exactly [brand + "-" + mode], for all
    strings and so for all non-empty identifiers, with nothing else done
    to either part; the result is as long as the two parts and the hyphen
    together; on "Brand-A" and "Lightmode" it gives "Brand-A-Lightmode".
    Being a total function of two strings it has no error case. *)
Theorem getThemeClass_concat :
  (∀ brand mode,
      getThemeClass brand mode = brand +:+ "-" +:+ mode
      ∧ String.length (getThemeClass brand mode)
        = String.length brand + 1 + String.length mode)
  ∧ getThemeClass "Brand-A" "Lightmode" = "Brand-A-Lightmode".
Proof.
  split; [|reflexivity]. intros brand mode.
  assert (Hrun : getThemeClass brand mode = brand +:+ "-" +:+ mode).
  { unfold getThemeClass. simpl.
    induction brand as [|c brand IH]; simpl; [|by f_equal].
    induction mode as [|c mode IH]; simpl; [done|by f_equal]. }
  split; [done|]. rewrite Hrun. clear Hrun.
  induction brand as [|c brand IH]; simpl; [|by rewrite IH].
  induction mode as [|c mode IH]; simpl; [done|]. by rewrite <- IH.
Qed.

(** ** The class set after [applyTheme] *)

Lemma classList_to_set brand mode className :
  list_to_set (classList brand mode className)
  =@{gset string} {[ BASE_CLASS; getThemeClass brand mode ]}.
Proof.
  apply set_eq. intros t.
  rewrite elem_of_list_to_set, classList_elem. set_solver.
Qed.

Section Apply_theorems.
Context {Store : Type} `{WebStorage Store}.
Variable computedValue : string → string → string.
Implicit Type w : World Store.

(** C1, as amended: for every brand and mode whose class [brand-mode]
    holds no space, and every prior class attribute, [applyTheme]
    completes and the set of class tokens of the root element is exactly
    [{"Headless-base", brand-mode}]. *)
Theorem applyTheme_class_set brand mode w :
  Js.has_char Js.space (getThemeClass brand mode) = false →
  ∃ w', applyTheme computedValue brand mode w = (Ok tt, w')
        ∧ class_set_is brand mode (w_className w').
Proof.
  intros Hsp.
  destruct (applyTheme_spec computedValue brand mode w) as (w' & Hrun & Hc & _).
  exists w'. split; [done|]. unfold class_set_is.
  rewrite Hc, classTokens_themedClassName by done.
  apply classList_to_set.
Qed.

(** C2, as amended: after [applyTheme] with a space-free class
    [brand-mode], the class attribute read as a token sequence holds only
    the base class and the brand-mode class, each as often as the prior
    attribute held it and once if it did not hold it; so each occurs
    exactly once whenever the prior attribute held neither twice. *)
Theorem applyTheme_token_counts brand mode w :
  Js.has_char Js.space (getThemeClass brand mode) = false →
  ∃ w', applyTheme computedValue brand mode w = (Ok tt, w')
        ∧ (∀ t, t ∈ classTokens (w_className w') →
                t = BASE_CLASS ∨ t = getThemeClass brand mode)
        ∧ occurrences BASE_CLASS (classTokens (w_className w'))
          = Nat.max 1 (occurrences BASE_CLASS (classTokens (w_className w)))
        ∧ occurrences (getThemeClass brand mode) (classTokens (w_className w'))
          = Nat.max 1 (occurrences (getThemeClass brand mode)
                         (classTokens (w_className w)))
        ∧ (occurrences BASE_CLASS (classTokens (w_className w)) ≤ 1 →
           occurrences (getThemeClass brand mode) (classTokens (w_className w)) ≤ 1 →
           exactly_one_each brand mode (w_className w')).
Proof.
  intros Hsp.
  destruct (applyTheme_spec computedValue brand mode w) as (w' & Hrun & Hc & _).
  exists w'. split; [done|]. unfold exactly_one_each.
  rewrite Hc, classTokens_themedClassName by done.
  rewrite !classList_occurrences by tauto.
  split; [by intros t ?%classList_elem|].
  repeat split; lia.
Qed.

(** C9: when the computed theme class is the base-class literal itself,
    [applyTheme] leaves the root element with the one class token
    "Headless-base": its class set is that singleton, not a two-element
    set, and the attribute is the bare literal when the prior attribute
    held it at most once. *)
Theorem applyTheme_coinciding_class brand mode w :
  getThemeClass brand mode = BASE_CLASS →
  ∃ w', applyTheme computedValue brand mode w = (Ok tt, w')
        ∧ list_to_set (classTokens (w_className w')) =@{gset string} {[ BASE_CLASS ]}
        ∧ size (list_to_set (classTokens (w_className w')) : gset string) = 1
        ∧ (occurrences BASE_CLASS (classTokens (w_className w)) ≤ 1 →
           w_className w' = BASE_CLASS).
Proof.
  intros Heq.
  assert (Hsp : Js.has_char Js.space (getThemeClass brand mode) = false)
    by by rewrite Heq.
  destruct (applyTheme_spec computedValue brand mode w) as (w' & Hrun & Hc & _).
  exists w'. split; [done|].
  assert (Hset : list_to_set (classTokens (w_className w'))
                 =@{gset string} {[ BASE_CLASS ]}).
  { rewrite Hc, classTokens_themedClassName, classList_to_set, Heq by done.
    set_solver. }
  split; [done|]. split; [by rewrite Hset, size_singleton|].
  intros Hone. rewrite Hc. unfold themedClassName.
  pose proof (classList_occurrences brand mode (w_className w) BASE_CLASS
                (or_introl eq_refl)) as Hocc.
  assert (Hall : ∀ t, t ∈ classList brand mode (w_className w) → t = BASE_CLASS).
  { intros t [->| ->]%classList_elem; done. }
  destruct (classList brand mode (w_className w)) as [|x [|y l]].
  - unfold occurrences in Hocc. simpl in Hocc. lia.
  - simpl. apply Hall. by left.
  - rewrite (Hall x), (Hall y) in Hocc by (rewrite !elem_of_cons; tauto).
    rewrite !occurrences_cons, String.eqb_refl in Hocc. lia.
Qed.

End Apply_theorems.

(** ** Refresh, ordering, persistence and start-up *)

Section Controller_theorems.
Context {Store : Type} `{WebStorage Store}.
Variable computedValue : string → string → string.
Implicit Type w : World Store.


(** C3: on a change event, with both controls in place, the handler
    completes and its effects come in this order: the class attribute is
    read and rewritten in a single write; then the display refreshers
    run, every style read among them resolving against the rewritten
    attribute; and only then come the storage writes, the brand write
    first. *)
Theorem theme_change_ordering h w sb sm :
  w_brandSelect w = Some sb →
  w_modeSelect w = Some sm →
  ∃ w' shown persisted,
    runHandler computedValue h w = (Ok tt, w')
    ∧ let c := themedClassName (sel_value sb) (sel_value sm) (w_className w) in
      w_className w' = c
      ∧ w_trace w'
        = w_trace w ++ [EvClassRead; EvClassWrite c] ++ shown
            ++ EvStorageWrite STORAGE_KEY_BRAND (sel_value sb) :: persisted
      ∧ Forall (display_event c) shown
      ∧ Forall store_event persisted.
Proof.
  intros Hb Hm. rewrite (runHandler_spec computedValue h w sb sm Hb Hm).
  destruct (applyTheme_spec computedValue (sel_value sb) (sel_value sm) w)
    as (w1 & Hrun1 & Hc1 & _ & _ & _ & _ & _ & _ & _ & shown & Ht1 & Hshown).
  destruct (saveToStorage_spec (sel_value sb) (sel_value sm) w1)
    as (w2 & Hrun2 & (Hc2 & _) & _ & _ & persisted & Ht2 & Hpers).
  exists w2, shown, persisted.
  split; [by rewrite (bind_ok _ _ _ _ _ Hrun1)|]. simpl.
  split; [congruence|]. split; [|done].
  rewrite Ht2, Ht1. by rewrite <- !app_assoc.
Qed.

(** C4: when a storage write throws, for any brand and mode, the save
    after an apply catches it, logs one warning and returns normally;
    the run of apply-then-save completes, and the class attribute and the
    document are as [applyTheme] left them.  So do both handlers. *)
Theorem saveToStorage_failure_contained brand mode w e :
  (setItem (w_localStorage w) STORAGE_KEY_BRAND brand = Throw e
   ∨ ∃ s1, setItem (w_localStorage w) STORAGE_KEY_BRAND brand = Ok s1
           ∧ setItem s1 STORAGE_KEY_MODE mode = Throw e) →
  ∃ w1 w',
    applyTheme computedValue brand mode w = (Ok tt, w1)
    ∧ saveToStorage brand mode w1 = (Ok tt, w')
    ∧ (applyTheme computedValue brand mode ;; saveToStorage brand mode) w
      = (Ok tt, w')
    ∧ w_className w' = w_className w1
    ∧ w_className w' = themedClassName brand mode (w_className w)
    ∧ w_document w' = w_document w1
    ∧ w_console w'
      = w_console w ++ [Warn "Failed to save theme preferences:" e]
    ∧ (∀ h sb sm,
          w_brandSelect w = Some sb → w_modeSelect w = Some sm →
          sel_value sb = brand → sel_value sm = mode →
          runHandler computedValue h w = (Ok tt, w')).
Proof.
  intros Hfail.
  destruct (applyTheme_spec computedValue brand mode w)
    as (w1 & Hrun1 & Hc1 & _ & _ & _ & _ & Hs1 & Ho1 & _).
  destruct (saveToStorage_spec brand mode w1)
    as (w2 & Hrun2 & (Hc2 & Hd2 & _) & _ & Ho2 & _).
  assert (Herr : (saveOutcome (w_localStorage w) brand mode).2 = Some e).
  { unfold saveOutcome. destruct Hfail as [->|(s1 & -> & ->)]; done. }
  assert (Hboth : (applyTheme computedValue brand mode ;; saveToStorage brand mode) w
                  = (Ok tt, w2)) by by rewrite (bind_ok _ _ _ _ _ Hrun1).
  exists w1, w2. repeat split; try done.
  - congruence.
  - by rewrite Ho2, Hs1, Herr, Ho1.
  - intros h sb sm Hb Hm <- <-.
    by rewrite (runHandler_spec computedValue h w sb sm Hb Hm).
Qed.

(** C8: the save is not atomic across its two keys.  On a lawful medium,
    when the brand write succeeds and the mode write after it throws,
    [saveToStorage] returns normally and the store is the one the brand
    write left: it answers the new brand and the old mode. *)
Theorem saveToStorage_not_atomic `{!LawfulStorage Store} brand mode w s1 e :
  setItem (w_localStorage w) STORAGE_KEY_BRAND brand = Ok s1 →
  setItem s1 STORAGE_KEY_MODE mode = Throw e →
  ∃ w', saveToStorage brand mode w = (Ok tt, w')
        ∧ w_localStorage w' = s1
        ∧ getItem (w_localStorage w') STORAGE_KEY_BRAND = Ok (Some brand)
        ∧ getItem (w_localStorage w') STORAGE_KEY_MODE
          = getItem (w_localStorage w) STORAGE_KEY_MODE
        ∧ w_console w'
          = w_console w ++ [Warn "Failed to save theme preferences:" e].
Proof.
  intros Hbrand Hmode.
  destruct (saveToStorage_spec brand mode w) as (w' & Hrun & _ & Hs & Ho & _).
  unfold saveOutcome in Hs, Ho. rewrite Hbrand, Hmode in Hs, Ho. simpl in Hs, Ho.
  exists w'. split; [done|]. split; [done|]. rewrite Hs.
  split; [by eapply getItem_setItem_eq|].
  split; [by eapply getItem_setItem_ne|done].
Qed.

(** C5: at start-up, with both controls in place: (a) if the store
    answers "Brand-B" and "Darkmode", [init] by itself ends with the class
    set [{"Headless-base", "Brand-B-Darkmode"}]; (b) if the store is empty
    or a read throws, [loadFromStorage] answers both fields absent and
    [init] applies "Brand-A" and "Lightmode", ending with the two classes
    [{"Headless-base", "Brand-A-Lightmode"}]. *)
Theorem init_restores_or_defaults w sb sm :
  w_brandSelect w = Some sb →
  w_modeSelect w = Some sm →
  (getItem (w_localStorage w) STORAGE_KEY_BRAND = Ok (Some "Brand-B") →
   getItem (w_localStorage w) STORAGE_KEY_MODE = Ok (Some "Darkmode") →
   ∃ w', init computedValue w = (Ok tt, w')
         ∧ list_to_set (classTokens (w_className w'))
           =@{gset string} {[ "Headless-base"; "Brand-B-Darkmode" ]}
         ∧ w_className w'
           = Js.join " " (classList "Brand-B" "Darkmode" (w_className w))
         ∧ (classTokens (w_className w) = [EmptyString] →
            w_className w' = "Headless-base Brand-B-Darkmode"))
  ∧ ((getItem (w_localStorage w) STORAGE_KEY_BRAND = Ok None
      ∧ getItem (w_localStorage w) STORAGE_KEY_MODE = Ok None)
     ∨ (∃ e, getItem (w_localStorage w) STORAGE_KEY_BRAND = Throw e)
     ∨ (∃ e, getItem (w_localStorage w) STORAGE_KEY_MODE = Throw e) →
     (∃ w1, loadFromStorage w = (Ok (mkSaved None None), w1))
     ∧ ∃ w', init computedValue w = (Ok tt, w')
             ∧ list_to_set (classTokens (w_className w'))
               =@{gset string} {[ "Headless-base"; "Brand-A-Lightmode" ]}
             ∧ size (list_to_set (classTokens (w_className w')) : gset string) = 2
             ∧ w_className w'
               = Js.join " " (classList "Brand-A" "Lightmode" (w_className w))
             ∧ (classTokens (w_className w) = [EmptyString] →
                w_className w' = "Headless-base Brand-A-Lightmode")).
Proof.
  intros Hb Hm.
  destruct (init_spec computedValue w sb sm Hb Hm) as (w' & Hrun & Hc & _).
  split.
  - intros Hgb Hgm. exists w'. split; [done|].
    unfold loadOutcome in Hc. rewrite Hgb, Hgm in Hc. simpl in Hc.
    split; [|split; [done|]].
    + rewrite Hc, classTokens_themedClassName by reflexivity.
      apply (classList_to_set "Brand-B" "Darkmode").
    + intros Hempty. rewrite Hc. unfold themedClassName, classList.
      fold (classTokens (w_className w)). by rewrite Hempty.
  - intros Hnone.
    assert (Hload : loadOutcome (w_localStorage w) = mkSaved None None).
    { unfold loadOutcome.
      destruct Hnone as [[-> ->]|[[e ->]|[e He]]]; [done..|].
      rewrite He. by destruct (getItem _ STORAGE_KEY_BRAND). }
    split.
    { destruct (loadFromStorage_spec w) as (w1 & Hrun1 & _).
      exists w1. by rewrite <- Hload. }
    exists w'. split; [done|]. rewrite Hload in Hc. simpl in Hc.
    assert (Hset : list_to_set (classTokens (w_className w'))
                   =@{gset string} {[ "Headless-base"; "Brand-A-Lightmode" ]}).
    { rewrite Hc, classTokens_themedClassName by reflexivity.
      apply (classList_to_set "Brand-A" "Lightmode"). }
    split; [done|]. split; [|split; [done|]].
    + rewrite Hset.
      rewrite size_union by (apply disjoint_singleton_l; by intros ?%elem_of_singleton).
      by rewrite !size_singleton.
    + intros Hempty. rewrite Hc. unfold themedClassName, classList.
      fold (classTokens (w_className w)). by rewrite Hempty.
Qed.

(** C10: at start-up, with both controls in place, a persisted empty
    string counts as absent: a brand read as [""] or as [null] becomes
    "Brand-A", a mode read as [""] or as [null] becomes "Lightmode", a
    non-empty stored value is used as it is, and the selection [init]
    applies, hands to the controls and logs is never empty in either
    field. *)
Theorem init_blank_is_absent w sb sm :
  w_brandSelect w = Some sb →
  w_modeSelect w = Some sm →
  ∃ w' brand mode entries,
    init computedValue w = (Ok tt, w')
    ∧ brand ≠ EmptyString ∧ mode ≠ EmptyString
    ∧ w_className w' = themedClassName brand mode (w_className w)
    ∧ w_brandSelect w' = Some (sel_setValue brand sb)
    ∧ w_modeSelect w' = Some (sel_setValue mode sm)
    ∧ w_console w'
      = entries ++ [Log "Theme system initialized:" brand mode
                      (getThemeClass brand mode) (w_className w')]
    ∧ (∀ b m,
          getItem (w_localStorage w) STORAGE_KEY_BRAND = Ok b →
          getItem (w_localStorage w) STORAGE_KEY_MODE = Ok m →
          brand = match b with
                  | Some EmptyString | None => "Brand-A"
                  | Some stored => stored
                  end
          ∧ mode = match m with
                   | Some EmptyString | None => "Lightmode"
                   | Some stored => stored
                   end).
Proof.
  intros Hb Hm.
  destruct (init_spec computedValue w sb sm Hb Hm)
    as (w' & Hrun & Hc & Hb' & Hm' & _ & _ & entries & Ho).
  exists w', (Js.or_else (saved_brand (loadOutcome (w_localStorage w))) "Brand-A"),
    (Js.or_else (saved_mode (loadOutcome (w_localStorage w))) "Lightmode"), entries.
  split; [done|].
  split; [by destruct (saved_brand _) as [[|]|]|].
  split; [by destruct (saved_mode _) as [[|]|]|].
  repeat (split; [done|]).
  intros b m Hgb Hgm. unfold loadOutcome. rewrite Hgb, Hgm. simpl.
  split; [by destruct b as [[|]|] | by destruct m as [[|]|]].
Qed.

End Controller_theorems.

(** ** The statements at concrete inputs *)

Lemma applyTheme_class_set_witness :
  Js.has_char Js.space (getThemeClass "Brand-B" "Darkmode") = false
  ∧ ∃ w', applyTheme demoStyles "Brand-B" "Darkmode"
            (demoWorld "no-js Brand-A-Lightmode" emptyArea) = (Ok tt, w')
          ∧ class_set_is "Brand-B" "Darkmode" (w_className w').
Proof.
  split; [reflexivity|].
  apply (applyTheme_class_set demoStyles "Brand-B" "Darkmode"
           (demoWorld "no-js Brand-A-Lightmode" emptyArea)).
  reflexivity.
Defined.

(** A brand holding a space: the written attribute reads back as three
    tokens, none of them the brand-mode class. *)
Lemma applyTheme_class_set_spaced_brand :
  w_className (applyTheme demoStyles "Brand A" "Lightmode" (demoWorld "" emptyArea)).2
  = "Headless-base Brand A-Lightmode"
  ∧ ¬ class_set_is "Brand A" "Lightmode"
        (w_className
           (applyTheme demoStyles "Brand A" "Lightmode" (demoWorld "" emptyArea)).2).
Proof.
  assert (Hc : w_className
                 (applyTheme demoStyles "Brand A" "Lightmode" (demoWorld "" emptyArea)).2
               = "Headless-base Brand A-Lightmode") by (vm_compute; reflexivity).
  split; [done|]. rewrite Hc. unfold class_set_is. intros Heq.
  assert (Hin : "Brand" ∈ (list_to_set (classTokens "Headless-base Brand A-Lightmode")
                           : gset string)).
  { change (classTokens "Headless-base Brand A-Lightmode")
      with ["Headless-base"; "Brand"; "A-Lightmode"].
    set_solver. }
  rewrite Heq in Hin.
  apply elem_of_union in Hin as [Hin|Hin]; apply elem_of_singleton in Hin;
    discriminate Hin.
Qed.

Lemma applyTheme_token_counts_witness :
  Js.has_char Js.space (getThemeClass "Brand-A" "Lightmode") = false
  ∧ ∃ w', applyTheme demoStyles "Brand-A" "Lightmode"
            (demoWorld "Headless-base Headless-base x" emptyArea) = (Ok tt, w')
          ∧ occurrences BASE_CLASS (classTokens (w_className w'))
            = Nat.max 1 (occurrences BASE_CLASS
                           (classTokens "Headless-base Headless-base x")).
Proof.
  split; [reflexivity|].
  destruct (applyTheme_token_counts demoStyles "Brand-A" "Lightmode"
              (demoWorld "Headless-base Headless-base x" emptyArea) eq_refl)
    as (w' & Hrun & _ & Hbase & _).
  exists w'. split; [exact Hrun | exact Hbase].
Defined.

(** A prior attribute holding the base class twice keeps it twice. *)
Lemma applyTheme_keeps_duplicates :
  w_className
    (applyTheme demoStyles "Brand-A" "Lightmode"
       (demoWorld "Headless-base Headless-base" emptyArea)).2
  = "Headless-base Headless-base Brand-A-Lightmode"
  ∧ ¬ exactly_one_each "Brand-A" "Lightmode"
        (w_className
           (applyTheme demoStyles "Brand-A" "Lightmode"
              (demoWorld "Headless-base Headless-base" emptyArea)).2).
Proof.
  split; [vm_compute; reflexivity|].
  unfold exactly_one_each. vm_compute. intros [Hbase _]. discriminate Hbase.
Qed.

Lemma applyTheme_coinciding_class_witness :
  getThemeClass "Headless" "base" = BASE_CLASS
  ∧ ∃ w', applyTheme demoStyles "Headless" "base" (demoWorld "no-js" emptyArea)
          = (Ok tt, w')
          ∧ w_className w' = BASE_CLASS.
Proof.
  split; [reflexivity|].
  destruct (applyTheme_coinciding_class demoStyles "Headless" "base"
              (demoWorld "no-js" emptyArea) eq_refl)
    as (w' & Hrun & _ & _ & Hone).
  exists w'. split; [exact Hrun|]. apply Hone. vm_compute. lia.
Defined.


Lemma theme_change_ordering_witness :
  w_brandSelect (demoWorld "no-js" emptyArea) = Some demoBrands
  ∧ w_modeSelect (demoWorld "no-js" emptyArea) = Some demoModes
  ∧ ∃ w' shown persisted,
      runHandler demoStyles HandleBrandChange (demoWorld "no-js" emptyArea)
      = (Ok tt, w')
      ∧ w_trace w'
        = [EvClassRead; EvClassWrite "Headless-base Brand-B-Darkmode"] ++ shown
            ++ EvStorageWrite STORAGE_KEY_BRAND "Brand-B" :: persisted
      ∧ Forall (display_event "Headless-base Brand-B-Darkmode") shown
      ∧ Forall store_event persisted.
Proof.
  split; [reflexivity|]. split; [reflexivity|].
  destruct (theme_change_ordering demoStyles HandleBrandChange
              (demoWorld "no-js" emptyArea) demoBrands demoModes eq_refl eq_refl)
    as (w' & shown & persisted & Hrun & _ & Htrace & Hshown & Hpers).
  exists w', shown, persisted. repeat split; assumption.
Defined.

Lemma saveToStorage_failure_contained_witness :
  setItem (w_localStorage (demoWorld "no-js" deniedArea)) STORAGE_KEY_BRAND "Brand-B"
  = Throw (DOMException "SecurityError")
  ∧ ∃ w1 w',
      applyTheme demoStyles "Brand-B" "Darkmode" (demoWorld "no-js" deniedArea)
      = (Ok tt, w1)
      ∧ saveToStorage "Brand-B" "Darkmode" w1 = (Ok tt, w')
      ∧ w_className w' = w_className w1
      ∧ w_console w'
        = [Warn "Failed to save theme preferences:" (DOMException "SecurityError")]
      ∧ runHandler demoStyles HandleModeChange (demoWorld "no-js" deniedArea)
        = (Ok tt, w').
Proof.
  split; [reflexivity|].
  destruct (saveToStorage_failure_contained demoStyles "Brand-B" "Darkmode"
              (demoWorld "no-js" deniedArea) (DOMException "SecurityError"))
    as (w1 & w' & Hrun1 & Hrun2 & _ & Hc & _ & _ & Ho & Hh);
    [left; reflexivity|].
  exists w1, w'. repeat split; try assumption.
  apply (Hh HandleModeChange demoBrands demoModes); reflexivity.
Defined.

Lemma saveToStorage_not_atomic_witness :
  let s1 := mkArea [(STORAGE_KEY_BRAND, "Brand-B"); (STORAGE_KEY_MODE, "Darkmode")]
              42 false in
  setItem tightArea STORAGE_KEY_BRAND "Brand-B" = Ok s1
  ∧ setItem s1 STORAGE_KEY_MODE "Lightmode"
    = Throw (DOMException "QuotaExceededError")
  ∧ ∃ w', saveToStorage "Brand-B" "Lightmode" (demoWorld "no-js" tightArea)
          = (Ok tt, w')
          ∧ getItem (w_localStorage w') STORAGE_KEY_BRAND = Ok (Some "Brand-B")
          ∧ getItem (w_localStorage w') STORAGE_KEY_MODE = Ok (Some "Darkmode").
Proof.
  intros s1. split; [reflexivity|]. split; [reflexivity|].
  destruct (saveToStorage_not_atomic "Brand-B" "Lightmode"
              (demoWorld "no-js" tightArea) s1
              (DOMException "QuotaExceededError"))
    as (w' & Hrun & _ & Hb & Hm & _); [reflexivity..|].
  exists w'. split; [exact Hrun|]. split; [exact Hb | exact Hm].
Defined.

Lemma init_restores_or_defaults_witness :
  (∃ w', init demoStyles (demoWorld "" savedArea) = (Ok tt, w')
         ∧ w_className w' = "Headless-base Brand-B-Darkmode")
  ∧ (∃ w', init demoStyles (demoWorld "no-js" emptyArea) = (Ok tt, w')
           ∧ list_to_set (classTokens (w_className w'))
             =@{gset string} {[ "Headless-base"; "Brand-A-Lightmode" ]})
  ∧ (∃ w', init demoStyles (demoWorld "" deniedArea) = (Ok tt, w')
           ∧ w_className w' = "Headless-base Brand-A-Lightmode").
Proof.
  split; [|split].
  - destruct (init_restores_or_defaults demoStyles (demoWorld "" savedArea)
                demoBrands demoModes eq_refl eq_refl) as [Hsaved _].
    destruct Hsaved as (w' & Hrun & _ & _ & Hplain); [reflexivity..|].
    exists w'. split; [exact Hrun|]. apply Hplain. reflexivity.
  - destruct (init_restores_or_defaults demoStyles (demoWorld "no-js" emptyArea)
                demoBrands demoModes eq_refl eq_refl) as [_ Hdef].
    destruct Hdef as (_ & w' & Hrun & Hset & _);
      [left; split; reflexivity|].
    exists w'. split; assumption.
  - destruct (init_restores_or_defaults demoStyles (demoWorld "" deniedArea)
                demoBrands demoModes eq_refl eq_refl) as [_ Hdef].
    destruct Hdef as (_ & w' & Hrun & _ & _ & _ & Hplain);
      [right; left; exists (DOMException "SecurityError"); reflexivity|].
    exists w'. split; [exact Hrun|]. apply Hplain. reflexivity.
Defined.

Lemma init_blank_is_absent_witness :
  w_brandSelect (demoWorld "no-js" blankArea) = Some demoBrands
  ∧ w_modeSelect (demoWorld "no-js" blankArea) = Some demoModes
  ∧ ∃ w', init demoStyles (demoWorld "no-js" blankArea) = (Ok tt, w')
          ∧ w_className w' = themedClassName "Brand-A" "Lightmode" "no-js".
Proof.
  split; [reflexivity|]. split; [reflexivity|].
  destruct (init_blank_is_absent demoStyles (demoWorld "no-js" blankArea)
              demoBrands demoModes eq_refl eq_refl)
    as (w' & brand & mode & entries & Hrun & _ & _ & Hc & _ & _ & _ & Hsel).
  destruct (Hsel (Some EmptyString) (Some EmptyString) eq_refl eq_refl)
    as [Hbrand Hmode].
  exists w'. split; [exact Hrun|]. rewrite Hc, Hbrand, Hmode. reflexivity.
Defined.

(** * Further properties of the script *)

(** ** The theme class determines the selection *)

Lemma getThemeClass_append brand mode :
  getThemeClass brand mode = brand +:+ String "-" mode.
Proof.
  unfold getThemeClass. simpl.
  induction brand as [|c brand IH]; simpl; [|by f_equal].
  induction mode as [|c mode IH]; simpl; [done|by f_equal].
Qed.

Lemma has_char_append c x y : Js.has_char c (x +:+ String c y) = true.
Proof.
  induction x as [|d x IH]; simpl.
  - by rewrite Ascii.eqb_refl.
  - rewrite IH. by destruct (Ascii.eqb d c).
Qed.

(** X1: two selections whose modes hold no hyphen get the same theme
    class only if they are the same selection. *)
Theorem getThemeClass_injective brand1 mode1 brand2 mode2 :
  Js.has_char "-" mode1 = false →
  Js.has_char "-" mode2 = false →
  getThemeClass brand1 mode1 = getThemeClass brand2 mode2 →
  brand1 = brand2 ∧ mode1 = mode2.
Proof.
  rewrite !getThemeClass_append. intros H1 H2. revert brand2.
  induction brand1 as [|c1 brand1 IH]; intros [|c2 brand2]; simpl.
  - by intros [= ->].
  - intros [= <- ->]. by rewrite has_char_append in H1.
  - intros [= -> <-]. by rewrite has_char_append in H2.
  - intros [= -> Hrest]. by destruct (IH _ Hrest) as [-> ->].
Qed.

Lemma getThemeClass_injective_witness :
  Js.has_char "-" "Lightmode" = false
  ∧ (getThemeClass "Brand-A" "Lightmode" = getThemeClass "Brand-A" "Lightmode" →
     "Brand-A" = "Brand-A" ∧ "Lightmode" = "Lightmode").
Proof.
  split; [reflexivity|].
  apply (getThemeClass_injective "Brand-A" "Lightmode" "Brand-A" "Lightmode");
    reflexivity.
Defined.

(** With a hyphen in the mode the class no longer tells the selection. *)
Example getThemeClass_ambiguous :
  getThemeClass "Brand-A" "Lightmode" = getThemeClass "Brand" "A-Lightmode".
Proof. reflexivity. Qed.

(** ** Re-applying and switching *)

Lemma filter_all (p : string → bool) (l : list string) :
  (∀ t, t ∈ l → p t = true) → List.filter p l = l.
Proof.
  induction l as [|x l IH]; [done|]. intros Hall. simpl.
  rewrite (Hall x) by by left. f_equal. apply IH. intros t Ht. apply Hall. by right.
Qed.

Lemma themedClassName_idempotent brand mode className :
  Js.has_char Js.space (getThemeClass brand mode) = false →
  themedClassName brand mode (themedClassName brand mode className)
  = themedClassName brand mode className.
Proof.
  intros Hsp. unfold themedClassName at 1.
  unfold classList at 1. fold (classTokens (themedClassName brand mode className)).
  rewrite classTokens_themedClassName by done.
  set (l := classList brand mode className).
  unfold Js.filter. rewrite filter_all.
  2:{ intros t Ht. apply keepClass_spec. by apply (classList_elem brand mode className). }
  assert (Hb : Js.includes l BASE_CLASS = true).
  { apply includes_elem, classList_elem. by left. }
  assert (Ht : Js.includes l (getThemeClass brand mode) = true).
  { apply includes_elem, classList_elem. by right. }
  rewrite Hb. cbn [negb]. rewrite Ht. reflexivity.
Qed.

Lemma all_same_replicate (x : string) (l : list string) :
  (∀ t, t ∈ l → t = x) → l = replicate (occurrences x l) x.
Proof.
  induction l as [|y l IH]; [done|]. intros Hall.
  rewrite occurrences_cons, (Hall y) by by left.
  rewrite String.eqb_refl. simpl. f_equal.
  apply IH. intros t Ht. apply Hall. by right.
Qed.

Lemma themedClassName_plain brand mode className :
  getThemeClass brand mode ≠ BASE_CLASS →
  occurrences BASE_CLASS (classTokens className) ≤ 1 →
  occurrences (getThemeClass brand mode) (classTokens className) = 0 →
  themedClassName brand mode className = plainClassName (getThemeClass brand mode).
Proof.
  intros Hne Hbase Htheme.
  unfold themedClassName, plainClassName, classList, Js.filter, Js.unshift, Js.push.
  set (theme := getThemeClass brand mode) in *.
  set (l0 := List.filter (keepClass theme) (classTokens className)).
  fold (classTokens className). fold l0.
  assert (Hb0 : occurrences BASE_CLASS l0 = occurrences BASE_CLASS (classTokens className)).
  { apply occurrences_filter, keepClass_spec. by left. }
  assert (Ht0 : occurrences theme l0 = 0).
  { unfold l0. rewrite occurrences_filter; [done|]. apply keepClass_spec. by right. }
  assert (Hall : ∀ t, t ∈ l0 → t = BASE_CLASS).
  { intros t Ht.
    assert (Hk : keepClass theme t = true).
    { apply list_elem_of_In, List.filter_In in Ht. tauto. }
    apply keepClass_spec in Hk as [->| ->]; [done|].
    apply occurrences_pos in Ht. lia. }
  rewrite (all_same_replicate _ _ Hall), Hb0.
  assert (Hneq : String.eqb theme BASE_CLASS = false) by by apply String.eqb_neq.
  destruct (occurrences BASE_CLASS (classTokens className)) as [|[|k]]; [| |lia];
    unfold Js.includes; simpl; rewrite Hneq; reflexivity.
Qed.

Example themedClassName_not_idempotent_with_space :
  let once := themedClassName "Headless-base x" "M" "" in
  once = "Headless-base Headless-base x-M"
  ∧ themedClassName "Headless-base x" "M" once
    = "Headless-base Headless-base Headless-base x-M".
Proof. split; reflexivity. Qed.


(** ** What the refreshers write *)

Lemma erase_fields e e' :
  erase e = erase e' →
  el_id e = el_id e' ∧ el_classes e = el_classes e'
  ∧ el_data_var e = el_data_var e' ∧ el_parent e = el_parent e'.
Proof. intros Her. by injection Her. Qed.

Lemma erase_isSwatchValue e e' :
  erase e = erase e' → isSwatchValue e = isSwatchValue e'.
Proof.
  intros (_ & Hcls & Hvar & _)%erase_fields. unfold isSwatchValue.
  by rewrite Hcls, Hvar.
Qed.

Lemma isSwatchValue_Some e :
  "swatch-value" ∈ el_classes e → is_Some (el_data_var e) → isSwatchValue e = true.
Proof.
  intros Hcls Hvar. unfold isSwatchValue.
  by rewrite !bool_decide_eq_true_2.
Qed.

Lemma tableNode_skeleton table doc doc' i :
  skeleton doc' = skeleton doc → tableNode table doc' i → tableNode table doc i.
Proof.
  intros Hsk (e' & id & var & He' & Hid & Hin).
  destruct (skeleton_lookup _ _ _ _ Hsk He') as (e & He & Her).
  apply erase_fields in Her as (Hid' & _).
  exists e, id, var. split; [done|]. split; [congruence|done].
Qed.

Lemma classes_display_not_token var :
  ("current-classes-display", var) ∉ tokenMap.
Proof.
  intros Hin. apply (list_elem_of_fmap_2 fst) in Hin. simpl in Hin.
  revert Hin. apply (bool_decide_unpack _). vm_compute. reflexivity.
Qed.


Section Refresher_effects.
Context {Store : Type} `{WebStorage Store}.
Variable computedValue : string → string → string.
Implicit Type w : World Store.

(** What [applyTheme] leaves in the element objects: the class rewrite,
    then the label, the swatches and the table, each refresher working
    on the document the one before it left. *)
Lemma applyTheme_nodes brand mode w :
  let c := themedClassName brand mode (w_className w) in
  ∃ w',
    applyTheme computedValue brand mode w = (Ok tt, w')
    ∧ skeleton (w_document w') = skeleton (w_document w)
    ∧ fewer_attached (w_document w) (w_document w')
    ∧ (∀ id var i,
          (id, var) ∈ tokenMap →
          elementById id (w_document w) = Some i →
          attached (w_document w') i →
          el_textContent <$> w_document w' !! i
          = Some (Js.trim (computedValue c var)))
    ∧ (∀ i e,
          w_document w !! i = Some e →
          isSwatchValue e = true →
          attached (w_document w') i →
          ¬ tableNode tokenMap (w_document w) i →
          el_textContent <$> w_document w' !! i
          = Some (Js.trim (computedValue c (default "null" (el_data_var e)))))
    ∧ (∀ i e,
          w_classesDisplay w = Some i →
          w_document w !! i = Some e →
          isSwatchValue e = false →
          ¬ tableNode tokenMap (w_document w) i →
          el_textContent <$> w_document w' !! i = Some c)
    ∧ (∀ i,
          attached (w_document w) i →
          (∀ j, w_classesDisplay w = Some j → inside (w_document w) j i = false) →
          (∀ j e, w_document w !! j = Some e → isSwatchValue e = true →
                  inside (w_document w) j i = false) →
          (∀ j, tableNode tokenMap (w_document w) j →
                inside (w_document w) j i = false) →
          attached (w_document w') i).
Proof.
  intros c.
  set (w0 := emit (EvClassWrite c) (with_className c (emit EvClassRead w))).
  destruct (updateClassDisplay_effect w0) as (w1 & Hrun1 & Hr1 & Hdoc1).
  destruct (updateSwatchValues_nodes computedValue w1)
    as (w2 & Hrun2 & Hr2 & Hfew2 & Hsw & Hother & Hatt2).
  destruct (token_table_spec computedValue tokenMap tokenMap_NoDup w2)
    as (w3 & Hrun3 & Hr3 & Hfew3 & Hset & Hkeep & Hatt3).
  change (w_document w0) with (w_document w) in Hdoc1.
  change (w_className w0) with c in Hdoc1.
  change (w_classesDisplay w0) with (w_classesDisplay w) in Hdoc1.
  assert (Hc1 : w_className w1 = c) by apply Hr1.
  assert (Hc2 : w_className w2 = c) by (rewrite <- Hc1; apply Hr2).
  assert (Hsk1 : skeleton (w_document w1) = skeleton (w_document w)) by apply Hr1.
  assert (Hsk2 : skeleton (w_document w2) = skeleton (w_document w)).
  { rewrite <- Hsk1. apply Hr2. }
  assert (Hsk3 : skeleton (w_document w3) = skeleton (w_document w)).
  { rewrite <- Hsk2. apply Hr3. }
  assert (Hfew1 : fewer_attached (w_document w) (w_document w1)).
  { rewrite Hdoc1. destruct (w_classesDisplay w);
      [apply assignTextContent_fewer|apply fewer_attached_refl]. }
  assert (Hfew12 : fewer_attached (w_document w) (w_document w2))
    by by eapply fewer_attached_trans.
  exists w3. split.
  { unfold applyTheme.
    rewrite (bind_ok _ _ w (w_className w) (emit EvClassRead w)) by done.
    rewrite (bind_ok _ _ _ tt w0) by done.
    by rewrite (bind_ok _ _ _ _ _ Hrun1), (bind_ok _ _ _ _ _ Hrun2). }
  split; [done|]. split; [by eapply fewer_attached_trans|].
  split; [|split; [|split]].
  - intros id var i Hin Hi Hlast. rewrite <- Hc2.
    apply (Hset id var i Hin); [|done].
    apply (elementById_stable id (w_document w)); try done. by apply Hfew3.
  - intros i e He Hs Hlast Hnot.
    rewrite Hkeep by (intros ?; by apply Hnot, (tableNode_skeleton _ _ _ _ Hsk2)).
    destruct (Hfew2 i (Hfew3 i Hlast)) as (e1 & He1 & Ha1).
    destruct (skeleton_lookup _ _ _ _ Hsk1 He1) as (e0 & He0 & Her).
    assert (e0 = e) as -> by congruence.
    rewrite (Hsw i e1 He1); [|by rewrite <- (erase_isSwatchValue _ _ Her)|done].
    apply erase_fields in Her as (_ & _ & Hvar & _). by rewrite Hc1, Hvar.
  - intros i e Hi He Hs Hnot.
    rewrite Hkeep by (intros ?; by apply Hnot, (tableNode_skeleton _ _ _ _ Hsk2)).
    rewrite Hother.
    + rewrite Hdoc1, Hi. by apply assignTextContent_text_eq with e.
    + intros (e1 & He1 & Hs1 & _).
      destruct (skeleton_lookup _ _ _ _ Hsk1 He1) as (e0 & He0 & Her).
      assert (e0 = e) as -> by congruence.
      rewrite (erase_isSwatchValue _ _ Her) in Hs. congruence.
  - intros i Hi Hlabel Hswatch Htable. apply Hatt3.
    + apply Hatt2.
      * rewrite Hdoc1. destruct (w_classesDisplay w) as [j|]; [|done].
        apply assignTextContent_attached; [done|]. by apply Hlabel.
      * intros j (e1 & He1 & Hs1 & _). rewrite (inside_skeleton _ _ _ _ Hsk1).
        destruct (skeleton_lookup _ _ _ _ Hsk1 He1) as (e & He & Her).
        apply (Hswatch j e He). by rewrite (erase_isSwatchValue _ _ Her).
    + intros j Hj. rewrite (inside_skeleton _ _ _ _ Hsk2).
      by apply Htable, (tableNode_skeleton _ _ _ _ Hsk2).
Qed.

End Refresher_effects.

(** ** Display, re-application and frame of [applyTheme] *)

Section Apply_extras.
Context {Store : Type} `{WebStorage Store}.
Variable computedValue : string → string → string.
Implicit Type w : World Store.

(** X2: [updateSwatchValues] completes on every document and writes
    every element that is in the document, has class [swatch-value] and
    carries a [data-var] attribute: its text becomes the trimmed resolved
    value of its variable.  The class attribute, the store and the
    console are as before, no element enters the document, and an
    element leaves it only from inside an element so written.  The
    trimmed value is the value without its surrounding white space. *)
Theorem updateSwatchValues_effect w :
  (∃ w', updateSwatchValues computedValue w = (Ok tt, w')
        ∧ w_className w' = w_className w
        ∧ w_localStorage w' = w_localStorage w
        ∧ w_console w' = w_console w
        ∧ (∀ i e varName,
              w_document w !! i = Some e →
              "swatch-value" ∈ el_classes e →
              el_data_var e = Some varName →
              el_attached e = true →
              el_textContent <$> w_document w' !! i
              = Some (Js.trim (computedValue (w_className w) varName)))
        ∧ fewer_attached (w_document w) (w_document w')
        ∧ (∀ j, attached (w_document w) j →
                (∀ i, swatchNode (w_document w) i →
                      inside (w_document w) i j = false) →
                attached (w_document w') j))
  ∧ (∀ raw, trimmedOf raw (Js.trim raw)).
Proof.
  split; [|apply trim_spec].
  destruct (updateSwatchValues_nodes computedValue w)
    as (w' & Hrun & Hr & Hfew & Hsw & _ & Hatt).
  exists w'. split; [done|]. repeat (split; [apply Hr|]).
  split; [|done].
  intros i e varName He Hcls Hvar Ha.
  rewrite (Hsw i e He); [by rewrite Hvar| |done].
  apply isSwatchValue_Some; [done|]. by rewrite Hvar.
Qed.

(** X3: applying the same selection twice in a row changes nothing the
    second time: when the class [brand-mode] holds no space, the class
    attribute after the second apply is the one after the first. *)
Theorem applyTheme_idempotent brand mode w :
  Js.has_char Js.space (getThemeClass brand mode) = false →
  ∃ w1 w2,
    applyTheme computedValue brand mode w = (Ok tt, w1)
    ∧ applyTheme computedValue brand mode w1 = (Ok tt, w2)
    ∧ w_className w2 = w_className w1.
Proof.
  intros Hsp.
  destruct (applyTheme_spec computedValue brand mode w) as (w1 & Hrun1 & Hc1 & _).
  destruct (applyTheme_spec computedValue brand mode w1) as (w2 & Hrun2 & Hc2 & _).
  exists w1, w2. split; [done|]. split; [done|].
  rewrite Hc2, Hc1. by apply themedClassName_idempotent.
Qed.

(** X4: from a class attribute that holds the base class at most once
    and does not hold the wanted brand-mode class (the empty attribute,
    foreign classes only, or the plain form of another theme),
    [applyTheme] writes exactly ["Headless-base" + " " + brand-mode],
    provided that class is not the base literal. *)
Theorem applyTheme_plain brand mode w :
  getThemeClass brand mode ≠ BASE_CLASS →
  occurrences BASE_CLASS (classTokens (w_className w)) ≤ 1 →
  occurrences (getThemeClass brand mode) (classTokens (w_className w)) = 0 →
  ∃ w', applyTheme computedValue brand mode w = (Ok tt, w')
        ∧ w_className w' = plainClassName (getThemeClass brand mode).
Proof.
  intros Hne Hbase Htheme.
  destruct (applyTheme_spec computedValue brand mode w) as (w' & Hrun & Hc & _).
  exists w'. split; [done|]. rewrite Hc. by apply themedClassName_plain.
Qed.

(** X5: after [applyTheme], the element of a table entry that was found
    before the call and is still in the document shows the trimmed value
    of the entry's variable resolved under the class attribute just
    written, not under the one in force before the call.  An element
    found before the call is still in the document if it lies inside
    neither the class label, nor a swatch, nor an element carrying an id
    of the table.  The trimmed value is the value without its
    surrounding white space. *)
Theorem applyTheme_shows_tokens brand mode w :
  (∃ w', applyTheme computedValue brand mode w = (Ok tt, w')
        ∧ (∀ id var i,
              (id, var) ∈ tokenMap →
              elementById id (w_document w) = Some i →
              attached (w_document w') i →
              el_textContent <$> w_document w' !! i
              = Some (Js.trim
                        (computedValue
                           (themedClassName brand mode (w_className w)) var)))
        ∧ (∀ id var i,
              (id, var) ∈ tokenMap →
              elementById id (w_document w) = Some i →
              (∀ j, w_classesDisplay w = Some j →
                    inside (w_document w) j i = false) →
              (∀ j e, w_document w !! j = Some e → isSwatchValue e = true →
                      inside (w_document w) j i = false) →
              (∀ j, tableNode tokenMap (w_document w) j →
                    inside (w_document w) j i = false) →
              attached (w_document w') i))
  ∧ (∀ raw, trimmedOf raw (Js.trim raw)).
Proof.
  split; [|apply trim_spec].
  destruct (applyTheme_nodes computedValue brand mode w)
    as (w' & Hrun & _ & _ & Hset & _ & _ & Hatt).
  exists w'. split; [done|]. split; [done|].
  intros id var i Hin Hi Hlabel Hswatch Htable. apply Hatt; try done.
  destruct (elementById_Some _ _ _ Hi) as (e & He & Ha & _). by exists e.
Qed.

(** X6: when the class label is the node with id
    [current-classes-display] and is not itself a swatch value, it shows
    the newly written class attribute verbatim after [applyTheme]. *)
Theorem applyTheme_shows_class_label brand mode w i :
  w_classesDisplay w = elementById "current-classes-display" (w_document w) →
  w_classesDisplay w = Some i →
  (∀ e, w_document w !! i = Some e → isSwatchValue e = false) →
  ∃ w', applyTheme computedValue brand mode w = (Ok tt, w')
        ∧ w_className w' = themedClassName brand mode (w_className w)
        ∧ el_textContent <$> w_document w' !! i
          = Some (themedClassName brand mode (w_className w)).
Proof.
  intros Hlabel Hi Hplain.
  destruct (applyTheme_spec computedValue brand mode w) as (w' & Hrun' & Hc & _).
  destruct (applyTheme_nodes computedValue brand mode w)
    as (w3 & Hrun & _ & _ & _ & _ & Hshow & _).
  assert (w' = w3) as -> by congruence.
  exists w3. split; [done|]. split; [done|].
  rewrite Hi in Hlabel. symmetry in Hlabel.
  destruct (elementById_Some _ _ _ Hlabel) as (e & He & _ & Hid).
  apply (Hshow i e Hi He (Hplain e He)).
  intros (e' & id & var & He' & Hid' & Hin).
  simplify_eq. by apply (classes_display_not_token var).
Qed.

(** X7: after [applyTheme], an element of class [swatch-value] with a
    [data-var] attribute that carries no id of the token table and is
    still in the document shows the trimmed value of its variable
    resolved under the class attribute just written.  Such an element
    that was in the document before the call still is if it lies inside
    neither the class label, nor another swatch, nor an element carrying
    an id of the table.  The trimmed value is the value without its
    surrounding white space. *)
Theorem applyTheme_shows_swatches brand mode w i e varName :
  w_document w !! i = Some e →
  "swatch-value" ∈ el_classes e →
  el_data_var e = Some varName →
  (∀ id var, (id, var) ∈ tokenMap → el_id e ≠ Some id) →
  (∃ w', applyTheme computedValue brand mode w = (Ok tt, w')
        ∧ (attached (w_document w') i →
           el_textContent <$> w_document w' !! i
           = Some (Js.trim
                     (computedValue
                        (themedClassName brand mode (w_className w)) varName)))
        ∧ (el_attached e = true →
           (∀ j, w_classesDisplay w = Some j →
                 inside (w_document w) j i = false) →
           (∀ j e', w_document w !! j = Some e' → isSwatchValue e' = true →
                    inside (w_document w) j i = false) →
           (∀ j, tableNode tokenMap (w_document w) j →
                 inside (w_document w) j i = false) →
           attached (w_document w') i))
  ∧ (∀ raw, trimmedOf raw (Js.trim raw)).
Proof.
  intros He Hcls Hvar Hids. split; [|apply trim_spec].
  destruct (applyTheme_nodes computedValue brand mode w)
    as (w' & Hrun & _ & _ & _ & Hsw & _ & Hatt).
  exists w'. split; [done|]. split.
  - intros Hlast. rewrite (Hsw i e He); [by rewrite Hvar| |done|].
    + apply isSwatchValue_Some; [done|]. by rewrite Hvar.
    + intros (e' & id & var & He' & Hid' & Hin). simplify_eq.
      by apply (Hids id var).
  - intros Ha Hlabel Hswatch Htable. apply Hatt; try done. by exists e.
Qed.


End Apply_extras.

(** ** Store, start-up and missing controls *)

Lemma storage_keys_differ : STORAGE_KEY_BRAND ≠ STORAGE_KEY_MODE.
Proof. discriminate. Qed.

Section Store_extras.
Context {Store : Type} `{WebStorage Store}.
Variable computedValue : string → string → string.
Implicit Type w : World Store.

Lemma loadFromStorage_effect w :
  ∃ w', loadFromStorage w = (Ok (loadOutcome (w_localStorage w)), w')
        ∧ stored w w'
        ∧ w_localStorage w' = w_localStorage w
        ∧ w_console w'
          = w_console w
            ++ match getItem (w_localStorage w) STORAGE_KEY_BRAND with
               | Throw e => [Warn "Failed to load theme preferences:" e]
               | Ok _ =>
                   match getItem (w_localStorage w) STORAGE_KEY_MODE with
                   | Throw e => [Warn "Failed to load theme preferences:" e]
                   | Ok _ => []
                   end
               end.
Proof.
  destruct (loadFromStorage_spec w) as (w' & Hrun & Hst & Hs).
  exists w'. split; [done|]. split; [done|]. split; [done|].
  revert Hrun.
  unfold loadFromStorage, try_catch, bind, localStorage_getItem, console_warn, ret.
  simpl.
  destruct (getItem (w_localStorage w) STORAGE_KEY_BRAND) as [b|e1]; simpl.
  - destruct (getItem (w_localStorage w) STORAGE_KEY_MODE) as [m|e2]; simpl;
      intros [= _ <-]; simpl; by rewrite ?app_nil_r.
  - by intros [= _ <-].
Qed.

(** X9: [loadFromStorage] never raises and never changes the store, the
    class attribute or the document.  It answers the two stored values
    when both reads succeed, logging nothing; when a read throws it
    answers both fields absent, even if the brand had been read, and
    logs one warning carrying the error. *)
Theorem loadFromStorage_all_or_nothing w :
  ∃ sv w',
    loadFromStorage w = (Ok sv, w')
    ∧ w_localStorage w' = w_localStorage w
    ∧ w_className w' = w_className w
    ∧ w_document w' = w_document w
    ∧ ((∃ b m, getItem (w_localStorage w) STORAGE_KEY_BRAND = Ok b
               ∧ getItem (w_localStorage w) STORAGE_KEY_MODE = Ok m
               ∧ sv = mkSaved b m
               ∧ w_console w' = w_console w)
       ∨ (∃ e, (getItem (w_localStorage w) STORAGE_KEY_BRAND = Throw e
                ∨ (∃ b, getItem (w_localStorage w) STORAGE_KEY_BRAND = Ok b
                        ∧ getItem (w_localStorage w) STORAGE_KEY_MODE = Throw e))
               ∧ sv = mkSaved None None
               ∧ w_console w'
                 = w_console w ++ [Warn "Failed to load theme preferences:" e])).
Proof.
  destruct (loadFromStorage_effect w) as (w' & Hrun & (Hc & Hd & _) & Hs & Ho).
  exists (loadOutcome (w_localStorage w)), w'.
  repeat (split; [done|]). unfold loadOutcome. revert Ho.
  destruct (getItem (w_localStorage w) STORAGE_KEY_BRAND) as [b|e1].
  - destruct (getItem (w_localStorage w) STORAGE_KEY_MODE) as [m|e2]; intros Ho.
    + left. exists b, m. by rewrite app_nil_r in Ho.
    + right. exists e2. split; [right; by exists b|done].
  - intros Ho. right. exists e1. split; [by left|done].
Qed.

(** X10: when the brand write throws, the mode write is not attempted:
    [saveToStorage] returns normally having made one storage access and
    logged one warning, and the store is untouched. *)
Theorem saveToStorage_brand_failure brand mode w e :
  setItem (w_localStorage w) STORAGE_KEY_BRAND brand = Throw e →
  ∃ w', saveToStorage brand mode w = (Ok tt, w')
        ∧ w_localStorage w' = w_localStorage w
        ∧ w_trace w'
          = w_trace w ++ [EvStorageWrite STORAGE_KEY_BRAND brand; EvConsole]
        ∧ w_console w'
          = w_console w ++ [Warn "Failed to save theme preferences:" e].
Proof.
  intros Hfail.
  unfold saveToStorage, try_catch, bind, localStorage_setItem, console_warn.
  rewrite Hfail. simpl.
  eexists. split; [reflexivity|]. simpl. by rewrite <- app_assoc.
Qed.

(** X11: on a lawful medium, a save whose two writes succeed logs
    nothing and is read back by [loadFromStorage] as the saved pair. *)
Theorem save_load_round_trip `{!LawfulStorage Store} brand mode w s1 s2 :
  setItem (w_localStorage w) STORAGE_KEY_BRAND brand = Ok s1 →
  setItem s1 STORAGE_KEY_MODE mode = Ok s2 →
  ∃ w' w'',
    saveToStorage brand mode w = (Ok tt, w')
    ∧ w_localStorage w' = s2
    ∧ w_console w' = w_console w
    ∧ loadFromStorage w' = (Ok (mkSaved (Some brand) (Some mode)), w'')
    ∧ w_console w'' = w_console w'.
Proof.
  intros Hb Hm.
  destruct (saveToStorage_spec brand mode w) as (w' & Hrun & _ & Hs & Ho & _).
  unfold saveOutcome in Hs, Ho. rewrite Hb, Hm in Hs, Ho. simpl in Hs, Ho.
  rewrite app_nil_r in Ho.
  destruct (loadFromStorage_effect w') as (w'' & Hload & _ & _ & Ho').
  assert (Hgm : getItem s2 STORAGE_KEY_MODE = Ok (Some mode))
    by by eapply getItem_setItem_eq.
  assert (Hgb : getItem s2 STORAGE_KEY_BRAND = Ok (Some brand)).
  { rewrite (getItem_setItem_ne _ _ _ _ STORAGE_KEY_BRAND Hm storage_keys_differ).
    by eapply getItem_setItem_eq. }
  unfold loadOutcome in Hload. rewrite Hs, Hgb, Hgm in Hload, Ho'.
  rewrite app_nil_r in Ho'.
  by exists w', w''.
Qed.

(** X12: what a change event saved is what the next page load applies.
    On a lawful medium, after a handler whose two writes succeeded with a
    non-empty brand and mode, [init] run in any later world holding the
    store the handler left (with both controls in place, whatever the
    class attribute of the fresh page) applies that same brand and mode. *)
Theorem reload_restores_selection `{!LawfulStorage Store} h w sb sm s1 s2 :
  w_brandSelect w = Some sb →
  w_modeSelect w = Some sm →
  sel_value sb ≠ EmptyString →
  sel_value sm ≠ EmptyString →
  setItem (w_localStorage w) STORAGE_KEY_BRAND (sel_value sb) = Ok s1 →
  setItem s1 STORAGE_KEY_MODE (sel_value sm) = Ok s2 →
  ∃ w', runHandler computedValue h w = (Ok tt, w')
        ∧ w_localStorage w' = s2
        ∧ ∀ (page : World Store) sb' sm',
            w_localStorage page = w_localStorage w' →
            w_brandSelect page = Some sb' →
            w_modeSelect page = Some sm' →
            ∃ page', init computedValue page = (Ok tt, page')
                     ∧ w_className page'
                       = themedClassName (sel_value sb) (sel_value sm)
                           (w_className page).
Proof.
  intros Hsb Hsm Hbne Hmne Hb Hm.
  rewrite (runHandler_spec computedValue h w sb sm Hsb Hsm).
  destruct (applyTheme_spec computedValue (sel_value sb) (sel_value sm) w)
    as (w1 & Hrun1 & _ & _ & _ & _ & _ & Hs1 & _).
  destruct (saveToStorage_spec (sel_value sb) (sel_value sm) w1)
    as (w2 & Hrun2 & _ & Hs2 & _).
  unfold saveOutcome in Hs2. rewrite Hs1, Hb, Hm in Hs2. simpl in Hs2.
  exists w2. split; [by rewrite (bind_ok _ _ _ _ _ Hrun1)|]. split; [done|].
  intros page sb' sm' Hstore Hsb' Hsm'.
  destruct (init_spec computedValue page sb' sm' Hsb' Hsm') as (page' & Hinit & Hc & _).
  exists page'. split; [done|]. rewrite Hc, Hstore, Hs2.
  assert (Hgm : getItem s2 STORAGE_KEY_MODE = Ok (Some (sel_value sm)))
    by by eapply getItem_setItem_eq.
  assert (Hgb : getItem s2 STORAGE_KEY_BRAND = Ok (Some (sel_value sb))).
  { rewrite (getItem_setItem_ne _ _ _ _ STORAGE_KEY_BRAND Hm storage_keys_differ).
    by eapply getItem_setItem_eq. }
  unfold loadOutcome. rewrite Hgb, Hgm. simpl.
  destruct (sel_value sb) as [|? ?]; [done|].
  destruct (sel_value sm) as [|? ?]; [done|]. done.
Qed.


(** X14: start-up with a control missing raises a [TypeError] before
    any theme is applied: the class attribute, the document and the store
    are as they were and no listener is registered. *)
Theorem init_missing_control w :
  w_brandSelect w = None ∨ w_modeSelect w = None →
  ∃ msg w', init computedValue w = (Throw (TypeError msg), w')
            ∧ w_className w' = w_className w
            ∧ w_document w' = w_document w
            ∧ w_localStorage w' = w_localStorage w
            ∧ w_listeners w' = w_listeners w.
Proof.
  intros Hmissing. unfold init.
  destruct (loadFromStorage_spec w)
    as (w1 & Hrun1 & (Hc1 & Hd1 & _ & Hb1 & Hm1 & Hl1 & _) & Hs1).
  rewrite (bind_ok _ _ _ _ _ Hrun1).
  set (brand := Js.or_else _ "Brand-A"). set (mode := Js.or_else _ "Lightmode").
  destruct (w_brandSelect w) as [sb|] eqn:Hb.
  - destruct (w_modeSelect w) as [sm|] eqn:Hm; [by destruct Hmissing|].
    set (w2 := with_select BrandSelect (Some (sel_setValue brand sb)) w1).
    rewrite (bind_ok _ _ w1 tt w2) by (unfold setValue; simpl; by rewrite Hb1).
    unfold bind at 1, setValue at 1. simpl. rewrite Hm1.
    eexists _, w2. split; [reflexivity|]. by simpl.
  - unfold bind at 1, setValue at 1. simpl. rewrite Hb1.
    eexists _, w1. split; [reflexivity|]. done.
Qed.


End Store_extras.

(** ** The further properties at concrete inputs *)

Lemma applyTheme_idempotent_witness :
  Js.has_char Js.space (getThemeClass "Brand-B" "Darkmode") = false
  ∧ ∃ w1 w2,
      applyTheme demoStyles "Brand-B" "Darkmode" (demoWorld "no-js" emptyArea)
      = (Ok tt, w1)
      ∧ applyTheme demoStyles "Brand-B" "Darkmode" w1 = (Ok tt, w2)
      ∧ w_className w2 = w_className w1.
Proof.
  split; [reflexivity|].
  apply (applyTheme_idempotent demoStyles "Brand-B" "Darkmode"
           (demoWorld "no-js" emptyArea)).
  reflexivity.
Defined.

Lemma applyTheme_plain_witness :
  occurrences BASE_CLASS (classTokens "Headless-base Brand-A-Lightmode") ≤ 1
  ∧ occurrences (getThemeClass "Brand-B" "Darkmode")
      (classTokens "Headless-base Brand-A-Lightmode") = 0
  ∧ ∃ w', applyTheme demoStyles "Brand-B" "Darkmode"
            (demoWorld "Headless-base Brand-A-Lightmode" emptyArea) = (Ok tt, w')
          ∧ w_className w' = "Headless-base Brand-B-Darkmode".
Proof.
  split; [vm_compute; lia|]. split; [reflexivity|].
  apply (applyTheme_plain demoStyles "Brand-B" "Darkmode"
           (demoWorld "Headless-base Brand-A-Lightmode" emptyArea)).
  - discriminate.
  - vm_compute. lia.
  - reflexivity.
Defined.

Lemma applyTheme_shows_class_label_witness :
  w_classesDisplay (demoWorld "no-js" emptyArea) = Some 0
  ∧ ∃ w', applyTheme demoStyles "Brand-B" "Darkmode" (demoWorld "no-js" emptyArea)
          = (Ok tt, w')
          ∧ el_textContent <$> w_document w' !! 0
            = Some "Headless-base Brand-B-Darkmode".
Proof.
  split; [reflexivity|].
  destruct (applyTheme_shows_class_label demoStyles "Brand-B" "Darkmode"
              (demoWorld "no-js" emptyArea) 0)
    as (w' & Hrun & _ & Htext).
  - reflexivity.
  - reflexivity.
  - intros e [= <-]. reflexivity.
  - exists w'. split; [exact Hrun | exact Htext].
Defined.

Lemma applyTheme_shows_swatches_witness :
  nestedDocument !! 1
  = Some (mkElement None ["swatch-value"] (Some "--semantic-fg-default") ""
            None true)
  ∧ ∃ w', applyTheme demoStyles "Brand-B" "Darkmode" (nestedWorld "no-js")
          = (Ok tt, w')
          ∧ attached (w_document w') 1
          ∧ el_textContent <$> w_document w' !! 1 = Some "4px".
Proof.
  split; [reflexivity|].
  destruct (applyTheme_shows_swatches demoStyles "Brand-B" "Darkmode"
              (nestedWorld "no-js") 1
              (mkElement None ["swatch-value"] (Some "--semantic-fg-default") ""
                 None true)
              "--semantic-fg-default")
    as [(w' & Hrun & Htext & Hstay) _].
  - reflexivity.
  - apply list_elem_of_In. simpl. tauto.
  - reflexivity.
  - intros id var _. discriminate.
  - assert (Hlast : attached (w_document w') 1).
    { apply Hstay; [reflexivity|intros j _; reflexivity
                   |intros j e' _ _; reflexivity|intros j _; reflexivity]. }
    exists w'. split; [exact Hrun|]. split; [exact Hlast|]. exact (Htext Hlast).
Defined.

Lemma saveToStorage_brand_failure_witness :
  setItem deniedArea STORAGE_KEY_BRAND "Brand-B"
  = Throw (DOMException "SecurityError")
  ∧ ∃ w', saveToStorage "Brand-B" "Darkmode" (demoWorld "no-js" deniedArea)
          = (Ok tt, w')
          ∧ w_localStorage w' = deniedArea
          ∧ w_trace w' = [EvStorageWrite STORAGE_KEY_BRAND "Brand-B"; EvConsole].
Proof.
  split; [reflexivity|].
  destruct (saveToStorage_brand_failure "Brand-B" "Darkmode"
              (demoWorld "no-js" deniedArea) (DOMException "SecurityError"))
    as (w' & Hrun & Hs & Ht & _); [reflexivity|].
  exists w'. split; [exact Hrun|]. split; [exact Hs | exact Ht].
Defined.

Lemma save_load_round_trip_witness :
  let s1 := mkArea [(STORAGE_KEY_BRAND, "Brand-B")] 64 false in
  let s2 := mkArea [(STORAGE_KEY_BRAND, "Brand-B"); (STORAGE_KEY_MODE, "Darkmode")]
              64 false in
  setItem emptyArea STORAGE_KEY_BRAND "Brand-B" = Ok s1
  ∧ setItem s1 STORAGE_KEY_MODE "Darkmode" = Ok s2
  ∧ ∃ w' w'',
      saveToStorage "Brand-B" "Darkmode" (demoWorld "no-js" emptyArea) = (Ok tt, w')
      ∧ loadFromStorage w'
        = (Ok (mkSaved (Some "Brand-B") (Some "Darkmode")), w'').
Proof.
  intros s1 s2. split; [reflexivity|]. split; [reflexivity|].
  destruct (save_load_round_trip "Brand-B" "Darkmode"
              (demoWorld "no-js" emptyArea) s1 s2)
    as (w' & w'' & Hsave & _ & _ & Hload & _); [reflexivity..|].
  exists w', w''. split; [exact Hsave | exact Hload].
Defined.

Lemma reload_restores_selection_witness :
  sel_value demoBrands = "Brand-B"
  ∧ sel_value demoModes = "Darkmode"
  ∧ ∃ w', runHandler demoStyles HandleBrandChange (demoWorld "no-js" emptyArea)
          = (Ok tt, w')
          ∧ ∃ page',
              init demoStyles (demoWorld "fresh" (w_localStorage w'))
              = (Ok tt, page')
              ∧ w_className page'
                = themedClassName "Brand-B" "Darkmode" "fresh".
Proof.
  split; [reflexivity|]. split; [reflexivity|].
  destruct (reload_restores_selection demoStyles HandleBrandChange
              (demoWorld "no-js" emptyArea) demoBrands demoModes
              (mkArea [(STORAGE_KEY_BRAND, "Brand-B")] 64 false)
              (mkArea [(STORAGE_KEY_BRAND, "Brand-B");
                       (STORAGE_KEY_MODE, "Darkmode")] 64 false))
    as (w' & Hrun & _ & Hreload);
    [reflexivity | reflexivity | discriminate | discriminate
    | reflexivity | reflexivity |].
  exists w'. split; [exact Hrun|].
  apply (Hreload (demoWorld "fresh" (w_localStorage w')) demoBrands demoModes);
    reflexivity.
Defined.


Lemma init_missing_control_witness :
  w_brandSelect brokenWorld = None
  ∧ ∃ msg w', init demoStyles brokenWorld = (Throw (TypeError msg), w')
              ∧ w_className w' = "no-js".
Proof.
  split; [reflexivity|].
  destruct (init_missing_control demoStyles brokenWorld)
    as (msg & w' & Hrun & Hc & _); [left; reflexivity|].
  exists msg, w'. split; [exact Hrun | exact Hc].
Defined.


(** On the nested page the table loop writes the outer element, which
    removes the inner one, and then skips the inner one's entry. *)
Example nested_table_run :
  let w' := (updateComponentTokenValues demoStyles (nestedWorld "Headless-base")).2 in
  el_textContent <$> w_document w' = [""; ""; "4px"; "4px"; "?"]
  ∧ el_attached <$> w_document w' = [true; true; true; true; false].
Proof. vm_compute. done. Qed.

(** On the nested page a whole apply writes the swatch, which removes
    the table element inside it before the table loop reaches it. *)
Example nested_apply_run :
  let w' := (applyTheme demoStyles "Brand-B" "Darkmode" (nestedWorld "no-js")).2 in
  el_textContent <$> w_document w'
  = ["Headless-base Brand-B-Darkmode"; "4px"; "?"; "4px"; "?"]
  ∧ el_attached <$> w_document w' = [true; true; false; true; false].
Proof. vm_compute. done. Qed.

Lemma applyTheme_shows_tokens_witness :
  elementById "tag-font-value" nestedDocument = Some 3
  ∧ ∃ w', applyTheme demoStyles "Brand-B" "Darkmode" (nestedWorld "no-js")
          = (Ok tt, w')
          ∧ attached (w_document w') 3
          ∧ el_textContent <$> w_document w' !! 3 = Some "4px".
Proof.
  split; [reflexivity|].
  destruct (applyTheme_shows_tokens demoStyles "Brand-B" "Darkmode"
              (nestedWorld "no-js"))
    as [(w' & Hrun & Hset & Hstay) _].
  assert (Hin : ("tag-font-value", "--tag-font-family") ∈ tokenMap).
  { apply list_elem_of_In. simpl. tauto. }
  assert (Hlast : attached (w_document w') 3).
  { apply (Hstay "tag-font-value" "--tag-font-family" 3 Hin);
      [reflexivity|intros j _; reflexivity
      |intros j e _ _; reflexivity|intros j _; reflexivity]. }
  exists w'. split; [exact Hrun|]. split; [exact Hlast|].
  exact (Hset "tag-font-value" "--tag-font-family" 3 Hin eq_refl Hlast).
Defined.

Lemma updateSwatchValues_effect_witness :
  ∃ w', updateSwatchValues demoStyles (nestedWorld "Headless-base") = (Ok tt, w')
        ∧ el_textContent <$> w_document w' !! 1 = Some "4px"
        ∧ attached (w_document w') 3.
Proof.
  destruct (updateSwatchValues_effect demoStyles (nestedWorld "Headless-base"))
    as [(w' & Hrun & _ & _ & _ & Hset & _ & Hstay) _].
  exists w'. split; [exact Hrun|]. split.
  - apply (Hset 1 (mkElement None ["swatch-value"] (Some "--semantic-fg-default")
                     "" None true) "--semantic-fg-default");
      [reflexivity|apply list_elem_of_In; simpl; tauto|reflexivity|reflexivity].
  - apply Hstay; [by eexists|]. intros i _. reflexivity.
Defined.
